(** * A shallow embedding of the tick-data producer (src/producer/producer.py)

    The producer keeps one random-walk price per symbol ([PriceSimulator]),
    turns it into trade records ([next_trade]) and drives an emission loop
    ([main]).  Python floats are IEEE-754 binary64 values; they are modelled
    with the executable binary64 specification of the standard library
    ([SpecFloat] with precision 53 and maximal exponent 1024), so products,
    sums, comparisons and the clamp behave bit for bit as in the interpreter,
    including infinities and NaN.  The random module and the wall clock are
    external: the random source is an interface ([RandomSource]) whose state
    is threaded through every call, and the clock reading is an input. *)

From Stdlib Require Import ZArith Bool List String Ascii Lia.
From Stdlib Require Import Floats.SpecFloat.
Import ListNotations.
Local Open Scope Z_scope.

(* ===================================================================== *)
(** * Part I: definitions *)
(* ===================================================================== *)

(** ** Binary64 floats *)
Module B64.

Definition prec : Z := 53.
Definition emax : Z := 1024.

Definition float := spec_float.

(** A value is a binary64 number when its mantissa is normalised for its
    exponent and the exponent is in range. *)
Definition valid (x : float) : bool := valid_binary prec emax x.

Definition is_nan (x : float) : bool :=
  match x with S754_nan => true | _ => false end.
Definition is_finite (x : float) : bool :=
  match x with S754_zero _ | S754_finite _ _ _ => true | _ => false end.
Definition is_zero (x : float) : bool :=
  match x with S754_zero _ => true | _ => false end.
Definition has_sign (s : bool) (x : float) : bool :=
  match x with
  | S754_zero s' | S754_infinity s' | S754_finite s' _ _ => Bool.eqb s' s
  | S754_nan => false
  end.

Definition mul : float -> float -> float := SFmul prec emax.
Definition add : float -> float -> float := SFadd prec emax.
Definition div : float -> float -> float := SFdiv prec emax.
Definition ltb : float -> float -> bool := SFltb.
Definition leb : float -> float -> bool := SFleb.

(** [of_decimal neg n k] is the binary64 value nearest to [n / 10^k] (ties to
    even), negated when [neg]: what the interpreter stores for a decimal
    literal, and what [strtod] returns. *)
Definition of_decimal (neg : bool) (n : Z) (k : nat) : float :=
  match n with
  | Z0 => S754_zero neg
  | Zpos p =>
      let '(q, e, l) :=
        SFdiv_core_binary prec emax (Zpos p) 0 (10 ^ Z.of_nat k) 0 in
      binary_round_aux prec emax neg q e l
  | Zneg _ => S754_nan
  end.

Definition zero : float := S754_zero false.
Definition one : float := Eval vm_compute in of_decimal false 1 0.

End B64.

Import B64.

(** ** The Python built-ins the producer uses *)
Module Py.

(** Exceptions that the modelled operations can raise. *)
Inductive exn : Type :=
| ZeroDivisionError
| ValueError
| OverflowError
| IndexError
| KeyError.

Inductive result (A : Type) : Type :=
| Ok (a : A)
| Raise (e : exn).
Arguments Ok {A} a.
Arguments Raise {A} e.

Definition bind {A B : Type} (c : result A) (k : A -> result B) : result B :=
  match c with
  | Ok a => k a
  | Raise e => Raise e
  end.

(** [max(a, b)] keeps its first argument unless the second is strictly
    greater: a NaN first argument is therefore returned as it is. *)
Definition py_max (a b : float) : float :=
  if ltb a b then b else a.

(** The integer nearest to [a / b] for [b > 0], ties to the even one. *)
Definition round_half_even (a b : Z) : Z :=
  let q := a / b in
  match 2 * (a mod b) ?= b with
  | Lt => q
  | Gt => q + 1
  | Eq => if Z.even q then q else q + 1
  end.

(** The integer nearest to [m * 2^e * 10^k]: the digits that the correctly
    rounded decimal conversion of [round] produces. *)
Definition to_scaled (m : positive) (e : Z) (k : nat) : Z :=
  if 0 <=? e then Zpos m * 2 ^ e * 10 ^ Z.of_nat k
  else round_half_even (Zpos m * 10 ^ Z.of_nat k) (2 ^ (- e)).

(** The value of [round(x, k)]: infinities, NaN and zeros are returned as
    they are; a finite [x] is converted to the nearest decimal with [k]
    fractional digits and that decimal back to the nearest float. *)
Definition round_value (x : float) (k : nat) : float :=
  match x with
  | S754_finite s m e => of_decimal s (to_scaled m e k) k
  | _ => x
  end.

(** [round(x, k)] raises OverflowError when the rounded decimal does not fit
    in a float. *)
Definition py_round (x : float) (k : nat) : result float :=
  let r := round_value x k in
  if is_finite x && negb (is_finite r) then Raise OverflowError else Ok r.

(** [1 / rate] for a float [rate]. *)
Definition py_inverse (rate : float) : result float :=
  if is_zero rate then Raise ZeroDivisionError else Ok (div one rate).

Definition nanoseconds : float := Eval vm_compute in of_decimal false 1000000000 0.
Definition two_pow_63 : float := S754_finite false 4503599627370496 11.

(** [time.sleep(secs)]: the delay is converted to a 64-bit count of
    nanoseconds; NaN and negative delays are ValueErrors, delays out of range
    are OverflowErrors.  The range test is made on floats and lets [2^63]
    itself pass, whose conversion is the most negative count: a ValueError.
    Only the conversion of the argument is followed: the sleep itself is
    taken to return (a deadline beyond the range of the system clock, some
    292 years ahead, is outside the model). *)
Definition time_sleep (secs : float) : result unit :=
  if is_nan secs then Raise ValueError
  else if negb (leb (mul secs nanoseconds) two_pow_63
                && leb (SFopp two_pow_63) (mul secs nanoseconds))
       then Raise OverflowError
  else if ltb secs zero || leb two_pow_63 (mul secs nanoseconds)
       then Raise ValueError
  else Ok tt.

(** [time.sleep(1 / rate)]: the delay that was slept, or the exception. *)
Definition sleep_for_rate (rate : float) : result float :=
  match py_inverse rate with
  | Raise e => Raise e
  | Ok secs =>
      match time_sleep secs with
      | Raise e => Raise e
      | Ok _ => Ok secs
      end
  end.

(** Insertion-ordered dictionaries with string keys. *)
Definition dict (V : Type) : Type := list (string * V).

Fixpoint dict_get {V : Type} (d : dict V) (k : string) : option V :=
  match d with
  | [] => None
  | (k', v) :: rest => if String.eqb k' k then Some v else dict_get rest k
  end.

Fixpoint dict_set {V : Type} (d : dict V) (k : string) (v : V) : dict V :=
  match d with
  | [] => [(k, v)]
  | (k', v') :: rest =>
      if String.eqb k' k then (k', v) :: rest else (k', v') :: dict_set rest k v
  end.

Definition dict_keys {V : Type} (d : dict V) : list string := map fst d.

(** [s.split(sep)] for a one-character separator. *)
Fixpoint split (sep : ascii) (s : string) : list string :=
  match s with
  | EmptyString => [EmptyString]
  | String c rest =>
      if Ascii.eqb c sep then EmptyString :: split sep rest
      else match split sep rest with
           | p :: ps => String c p :: ps
           | [] => [String c EmptyString]
           end
  end.

(** The white space that [str.strip] removes from a string of ASCII
    characters; symbols are taken to be such strings. *)
Definition is_space (c : ascii) : bool :=
  let n := nat_of_ascii c in
  ((9 <=? n) && (n <=? 13) || (28 <=? n) && (n <=? 32))%nat.

Fixpoint lstrip (s : string) : string :=
  match s with
  | String c rest => if is_space c then lstrip rest else s
  | EmptyString => EmptyString
  end.

Fixpoint rstrip (s : string) : string :=
  match s with
  | EmptyString => EmptyString
  | String c rest =>
      match rstrip rest with
      | EmptyString => if is_space c then EmptyString else String c EmptyString
      | r => String c r
      end
  end.

Definition strip (s : string) : string := rstrip (lstrip s).

(** *** The random module

    The generator behind [random] is a deterministic function of its state.
    Its four entry points used here are kept abstract; [RandomLaws] records
    what the library documents about their results. *)
Class RandomSource (G : Type) : Type := {
  (** the standard normal deviate that [gauss] scales *)
  normal_deviate : G -> float * G;
  (** [lognormvariate(mu, sigma)] *)
  lognormvariate : float -> float -> G -> float * G;
  (** [_randbelow(n)] *)
  randbelow : Z -> G -> Z * G;
  (** [uniform(a, b)] *)
  uniform : float -> float -> G -> float * G
}.

Record RandomLaws (G : Type) `{RandomSource G} : Prop := {
  normal_deviate_finite : forall g,
    valid (fst (normal_deviate g)) = true /\
    is_finite (fst (normal_deviate g)) = true;
  lognormvariate_positive : forall g,
    valid (fst (lognormvariate zero one g)) = true /\
    is_finite (fst (lognormvariate zero one g)) = true /\
    ltb zero (fst (lognormvariate zero one g)) = true;
  randbelow_range : forall n g,
    0 < n -> 0 <= fst (randbelow n g) < n;
  uniform_range : forall a b g,
    valid a = true -> valid b = true -> leb a b = true ->
    valid (fst (uniform a b g)) = true /\
    leb a (fst (uniform a b g)) = true /\
    leb (fst (uniform a b g)) b = true
}.

(** The lower end of the log-normal sampler.  [lognormvariate(0, 1)] is
    [exp(z)] for the deviate [z] of [normalvariate], which accepts a
    candidate only when [z * z / 4 <= -log(u2)] for [u2 = 1 - random()], a
    float that is at least [2^-53]: so [z * z <= 4 * 53 * log 2], [z] is above
    [-12.13] and the draw is above [exp(-12.13)], which is more than
    [5e-06]. *)
Definition lognorm_low : float := Eval vm_compute in of_decimal false 5 6.

Record SamplerTail (G : Type) `{RandomSource G} : Prop := {
  lognormvariate_low : forall g,
    leb lognorm_low (fst (lognormvariate zero one g)) = true
}.

Section Random.
Context {G : Type} `{RandomSource G}.

(** [gauss(mu, sigma)] returns [mu + z * sigma]. *)
Definition gauss (mu sigma : float) (g : G) : float * G :=
  let '(z, g') := normal_deviate g in
  (add mu (mul z sigma), g').

(** [randint(a, b)] is [a + _randbelow(b - a + 1)]. *)
Definition randint (a b : Z) (g : G) : Z * G :=
  let '(k, g') := randbelow (b - a + 1) g in
  (a + k, g').

(** [choice(seq)] is [seq[_randbelow(len(seq))]]; an empty sequence is an
    IndexError. *)
Definition choice {A : Type} (seq : list A) (g : G) : result (A * G) :=
  match seq with
  | [] => Raise IndexError
  | _ :: _ =>
      let '(i, g') := randbelow (Z.of_nat (List.length seq)) g in
      match nth_error seq (Z.to_nat i) with
      | Some x => Ok (x, g')
      | None => Raise IndexError
      end
  end.
End Random.

End Py.

Import Py.

Declare Scope py_scope.
Notation "x <- c ;; k" := (bind c (fun x => k))
  (at level 61, c at next level, right associativity) : py_scope.
Notation "' p <- c ;; k" := (bind c (fun x => let 'p := x in k))
  (at level 61, p pattern, c at next level, right associativity) : py_scope.
Local Open Scope py_scope.

(** ** The producer *)

(** Float literals of the source, as the interpreter reads them. *)
Definition price_floor : float := Eval vm_compute in of_decimal false 1 4.
Definition default_volatility : float := Eval vm_compute in of_decimal false 2 4.
Definition volume_scale : float := Eval vm_compute in of_decimal false 1 1.
Definition ten : float := Eval vm_compute in of_decimal false 10 0.
Definition thousand : float := Eval vm_compute in of_decimal false 1000 0.

(** The trade record that [next_trade] returns. *)
Module Trade.
Record t : Type := mk {
  exchange_time : string;
  symbol : string;
  price : float;
  volume : float;
  trade_id : Z;
  side : string
}.
End Trade.

(** The state of one simulator object. *)
Record PriceSimulator : Type := {
  symbol : string;
  price : float;
  volatility : float;
  trade_id : Z
}.

(** The starting-price table of [create_simulators]. *)
Definition initial_prices : dict float := Eval vm_compute in
  [ ("BTC/USD"%string, of_decimal false 45000 0);
    ("ETH/USD"%string, of_decimal false 2500 0);
    ("SOL/USD"%string, of_decimal false 100 0);
    ("DOGE/USD"%string, of_decimal false 8 2);
    ("XRP/USD"%string, of_decimal false 55 2);
    ("ADA/USD"%string, of_decimal false 45 2) ].

Section Producer.
Context {G : Type} `{RandomSource G}.

(** [PriceSimulator.__init__] *)
Definition PriceSimulator_init (symbol : string) (initial_price : float)
    (volatility : float) (g : G) : PriceSimulator * G :=
  let '(tid, g') := randint 1000000 9999999 g in
  ({| symbol := symbol; price := initial_price;
      volatility := volatility; trade_id := tid |}, g').

(** The price after the random-walk step and before the clamp:
    [price * (1 + change)]. *)
Definition walked_price (self : PriceSimulator) (g : G) : float :=
  mul (price self) (add one (fst (gauss zero (volatility self) g))).

(** The price that the call stores: the walked price clamped at the floor. *)
Definition clamped_price (self : PriceSimulator) (g : G) : float :=
  py_max (walked_price self g) price_floor.

(** The volume before rounding: the log-normal draw times 0.1. *)
Definition scaled_volume (self : PriceSimulator) (g : G) : float :=
  mul (fst (lognormvariate zero one (snd (gauss zero (volatility self) g))))
      volume_scale.

(** [PriceSimulator.next_trade]; [now] is the formatted reading of the clock
    taken by the call.  The result holds the record, the simulator after the
    call and the state of the random source. *)
Definition next_trade (self : PriceSimulator) (g : G) (now : string)
    : result (Trade.t * PriceSimulator * G) :=
  let '(change, g1) := gauss zero (volatility self) g in
  let price1 := mul (price self) (add one change) in
  let price2 := py_max price1 price_floor in
  let '(draw, g2) := lognormvariate zero one g1 in
  let volume := mul draw volume_scale in
  '(side, g3) <- choice ["buy"%string; "sell"%string] g2 ;;
  let trade_id' := trade_id self + 1 in
  rounded_price <- py_round price2 8 ;;
  rounded_volume <- py_round volume 8 ;;
  Ok ({| Trade.exchange_time := now;
         Trade.symbol := symbol self;
         Trade.price := rounded_price;
         Trade.volume := rounded_volume;
         Trade.trade_id := trade_id';
         Trade.side := side |},
      {| symbol := symbol self; price := price2;
         volatility := volatility self; trade_id := trade_id' |},
      g3).

(** [n] successive calls of [next_trade] on one simulator; [clock i] is the
    clock reading of the [i]-th call. *)
Fixpoint run_trades (n : nat) (self : PriceSimulator) (g : G)
    (clock : nat -> string) : result (list Trade.t * PriceSimulator * G) :=
  match n with
  | O => Ok ([], self, g)
  | S n' =>
      '(trade, self1, g1) <- next_trade self g (clock O) ;;
      '(trades, self2, g2) <- run_trades n' self1 g1 (fun i => clock (S i)) ;;
      Ok (trade :: trades, self2, g2)
  end.

(** The loop of [create_simulators].  The default of [dict.get] is an
    argument, so [uniform] is called for every symbol. *)
Fixpoint create_loop (symbols : list string) (simulators : dict PriceSimulator)
    (g : G) : dict PriceSimulator * G :=
  match symbols with
  | [] => (simulators, g)
  | symbol :: rest =>
      let '(fallback, g1) := uniform ten thousand g in
      let price :=
        match dict_get initial_prices symbol with
        | Some p => p
        | None => fallback
        end in
      let '(sim, g2) := PriceSimulator_init symbol price default_volatility g1 in
      create_loop rest (dict_set simulators symbol sim) g2
  end.

Definition create_simulators (symbols : list string) (g : G)
    : dict PriceSimulator * G :=
  create_loop symbols [] g.

(** One [next] of the generator [generate_trades]: [symbols] is the key list
    taken when the generator starts. *)
Definition generate_trades (symbols : list string)
    (simulators : dict PriceSimulator) (g : G) (now : string)
    : result (Trade.t * dict PriceSimulator * G) :=
  '(symbol, g1) <- choice symbols g ;;
  match dict_get simulators symbol with
  | None => Raise KeyError
  | Some sim =>
      '(trade, sim', g2) <- next_trade sim g1 now ;;
      Ok (trade, dict_set simulators symbol sim', g2)
  end.

(** *** The driver *)

(** The parsed command line.  When [--rate] is absent the attribute is the
    integer 10, which divides and sleeps like the float [10.0]. *)
Record Args : Type := {
  broker : string;
  topic : string;
  symbols : string;
  rate : float;
  count : Z;
  dry_run : bool
}.

(** What the process prints and what it asks of the queue client. *)
Inductive message : Type :=
| Starting
| BrokerLine (b : string)
| TopicLine (t : string)
| SymbolsLine (l : list string)
| RateLine (r : float)
| Blank
| DryRunNotice
| ConnectedTo (b : string)
| ConnectFailed (reason : string)
| ConnectHint
| Progress (sent : Z) (last : Trade.t)
| InterruptedLine (sent : Z)
| ProducerClosed.

Inductive event : Type :=
| Stdout (m : message)
| StdoutTrade (trade : Trade.t)
| Sleep (secs : float)
| KafkaConnect (b : string)
| KafkaSend (topic : string) (trade : Trade.t)
| KafkaFlush
| KafkaClose.

(** STOPPED: [main] returned; RUNNING: the loop is still going when the fuel
    of the model is spent; CRASHED: an exception left [main]. *)
Inductive status : Type :=
| STOPPED
| RUNNING
| CRASHED (e : exn).

Inductive connection : Type :=
| Connected
| KafkaError (reason : string).

Record outcome : Type := {
  final : status;
  trace : list event;
  simulators_at_exit : dict PriceSimulator;
  random_at_exit : G
}.

(** The body of the dry-run [for] loop, from iteration [i] on; [trace] is the
    reversed list of events so far. *)
Fixpoint dry_run_loop (fuel : nat) (args : Args) (symbols : list string)
    (clock : nat -> string) (i : nat) (simulators : dict PriceSimulator)
    (g : G) (trace : list event) : outcome :=
  match fuel with
  | O => {| final := RUNNING; trace := rev trace;
            simulators_at_exit := simulators; random_at_exit := g |}
  | S fuel' =>
      match generate_trades symbols simulators g (clock i) with
      | Raise e => {| final := CRASHED e; trace := rev trace;
                      simulators_at_exit := simulators; random_at_exit := g |}
      | Ok (trade, simulators1, g1) =>
          let trace1 := StdoutTrade trade :: trace in
          match sleep_for_rate (rate args) with
          | Raise e => {| final := CRASHED e; trace := rev trace1;
                          simulators_at_exit := simulators1;
                          random_at_exit := g1 |}
          | Ok secs =>
              let trace2 := Sleep secs :: trace1 in
              if negb (count args =? 0) && (Z.of_nat i >=? count args - 1)
              then {| final := STOPPED; trace := rev trace2;
                      simulators_at_exit := simulators1;
                      random_at_exit := g1 |}
              else dry_run_loop fuel' args symbols clock (S i)
                     simulators1 g1 trace2
          end
      end
  end.

(** The [finally] clause of the sending loop. *)
Definition shutdown : list event :=
  [KafkaFlush; KafkaClose; Stdout ProducerClosed].

(** The sending loop, after [sent] records, as long as nothing reaches it
    from outside; an interrupt from the keyboard and a send that fails are
    followed by [guarded_send_loop] below. *)
Fixpoint send_loop (fuel : nat) (args : Args) (symbols : list string)
    (clock : nat -> string) (interval : float) (sent : nat)
    (simulators : dict PriceSimulator) (g : G) (trace : list event)
    : outcome :=
  match fuel with
  | O => {| final := RUNNING; trace := rev trace;
            simulators_at_exit := simulators; random_at_exit := g |}
  | S fuel' =>
      match generate_trades symbols simulators g (clock sent) with
      | Raise e => {| final := CRASHED e; trace := rev trace ++ shutdown;
                      simulators_at_exit := simulators; random_at_exit := g |}
      | Ok (trade, simulators1, g1) =>
          let sent1 := S sent in
          let trace1 := KafkaSend (topic args) trade :: trace in
          let trace2 :=
            if Z.of_nat sent1 mod 100 =? 0
            then Stdout (Progress (Z.of_nat sent1) trade) :: trace1
            else trace1 in
          match time_sleep interval with
          | Raise e => {| final := CRASHED e; trace := rev trace2 ++ shutdown;
                          simulators_at_exit := simulators1;
                          random_at_exit := g1 |}
          | Ok _ =>
              let trace3 := Sleep interval :: trace2 in
              if negb (count args =? 0) && (Z.of_nat sent1 >=? count args)
              then {| final := STOPPED; trace := rev trace3 ++ shutdown;
                      simulators_at_exit := simulators1;
                      random_at_exit := g1 |}
              else send_loop fuel' args symbols clock interval sent1
                     simulators1 g1 trace3
          end
      end
  end.

(** [main] after argument parsing.  [link] is the result of opening the
    connection to the queue; [fuel] bounds the iterations that the model
    follows. *)
Definition main (fuel : nat) (args : Args) (link : connection)
    (clock : nat -> string) (g : G) : outcome :=
  let symbol_list := map strip (split ","%char (symbols args)) in
  let '(simulators, g1) := create_simulators symbol_list g in
  let banner :=
    [Stdout Blank; Stdout (RateLine (rate args));
     Stdout (SymbolsLine symbol_list); Stdout (TopicLine (topic args));
     Stdout (BrokerLine (broker args)); Stdout Starting] in
  if dry_run args then
    dry_run_loop fuel args (dict_keys simulators) clock O simulators g1
      (Stdout DryRunNotice :: banner)
  else
    match link with
    | KafkaError reason =>
        {| final := STOPPED;
           trace := rev (Stdout ConnectHint :: Stdout (ConnectFailed reason)
                         :: KafkaConnect (broker args) :: banner);
           simulators_at_exit := simulators; random_at_exit := g1 |}
    | Connected =>
        let trace0 :=
          Stdout (ConnectedTo (broker args)) :: KafkaConnect (broker args)
          :: banner in
        match py_inverse (rate args) with
        | Raise e => {| final := CRASHED e; trace := rev trace0;
                        simulators_at_exit := simulators;
                        random_at_exit := g1 |}
        | Ok interval =>
            send_loop fuel args (dict_keys simulators) clock interval O
              simulators g1 trace0
        end
    end.

End Producer.

(** The records printed or sent along a trace. *)
Definition emitted (tr : list event) : list Trade.t :=
  flat_map (fun ev =>
              match ev with
              | StdoutTrade t | KafkaSend _ t => [t]
              | _ => []
              end) tr.

Definition is_kafka (ev : event) : bool :=
  match ev with
  | KafkaConnect _ | KafkaSend _ _ | KafkaFlush | KafkaClose => true
  | _ => false
  end.

(** The (price, volume, side) part of a record. *)
Definition quote (t : Trade.t) : float * float * string :=
  (Trade.price t, Trade.volume t, Trade.side t).

(** The (price, volume, side) sequence of a run, or the exception that ended
    it. *)
Definition quotes {S G : Type} (r : result (list Trade.t * S * G))
    : result (list (float * float * string)) :=
  match r with
  | Ok (trades, _, _) => Ok (map quote trades)
  | Raise e => Raise e
  end.

(** Half a unit of the eighth decimal place, [5e-09]. *)
Definition half_unit8 : float := Eval vm_compute in of_decimal false 5 9.

(** A float with at most 8 decimals: the float of a decimal numeral with 8
    fractional digits. *)
Definition has_8_decimals (x : float) : Prop :=
  exists neg n, 0 <= n /\ x = of_decimal neg n 8.

(** The simulator holds binary64 numbers. *)
Definition wf_simulator (s : PriceSimulator) : Prop :=
  valid (price s) = true /\ valid (volatility s) = true.

Definition wf_simulators (d : dict PriceSimulator) : Prop :=
  forall k v, dict_get d k = Some v -> wf_simulator v.

(** What [create_simulators] promises for the simulator stored under [sym]:
    the table price when the table has the symbol, otherwise a draw of
    [uniform(10, 1000)], which lies in [10, 1000]. *)
Definition starting_price_ok {G : Type} `{RandomSource G}
    (sym : string) (sim : PriceSimulator) : Prop :=
  match dict_get initial_prices sym with
  | Some p => price sim = p
  | None =>
      (exists g, price sim = fst (uniform ten thousand g)) /\
      leb ten (price sim) = true /\ leb (price sim) thousand = true
  end.

(** What holds of every simulator that [create_simulators] stores. *)
Definition created_ok {G : Type} `{RandomSource G}
    (sym : string) (sim : PriceSimulator) : Prop :=
  symbol sim = sym /\ wf_simulator sim /\ starting_price_ok sym sim.

(** ** A scripted random source

    A tape of recorded draws, replayed in order; a draw that the library could
    not have returned is replaced by a neutral one. *)
Module Script.

Inductive draw : Type :=
| flt (x : float)
| int (k : Z).

Definition tape : Type := list draw.

Definition next_float (ok : float -> bool) (default : float) (g : tape)
    : float * tape :=
  match g with
  | flt x :: g' => (if ok x then x else default, g')
  | int _ :: g' => (default, g')
  | [] => (default, [])
  end.

Definition next_below (n : Z) (g : tape) : Z * tape :=
  match g with
  | int k :: g' => (k mod n, g')
  | flt _ :: g' => (0, g')
  | [] => (0, [])
  end.

#[export] Instance source : RandomSource tape := {
  normal_deviate := next_float (fun x => valid x && is_finite x) zero;
  lognormvariate := fun _ _ =>
    next_float (fun x => valid x && is_finite x && ltb zero x
                         && leb lognorm_low x) one;
  randbelow := next_below;
  uniform := fun a b =>
    next_float (fun x => valid x && leb a x && leb x b) a
}.

End Script.

(** ** Concrete inputs used in the examples below *)
Import Script.

Definition minus_one : float := Eval vm_compute in of_decimal true 1 0.

(** A simulator whose price rests on the floor, and a tape on which [gauss]
    returns [-0.0002] (one standard deviation down). *)
Definition sim_on_floor : PriceSimulator :=
  {| symbol := "DOGE/USD"; price := price_floor;
     volatility := default_volatility; trade_id := 1000000 |}.
Definition tape_down : tape := [flt minus_one; flt one; int 1].

(** The BTC/USD simulator of the starting-price table and a tape on which
    [gauss] returns [+0.0002]. *)
Definition btc_start : float := Eval vm_compute in of_decimal false 45000 0.
Definition sim_btc : PriceSimulator :=
  {| symbol := "BTC/USD"; price := btc_start;
     volatility := default_volatility; trade_id := 1000000 |}.
Definition tape_up : tape := [flt one; flt one; int 0].

(** A tape whose log-normal draw is [6e-06], near the lower end of the
    sampler. *)
Definition small_draw : float := Eval vm_compute in of_decimal false 6 6.
Definition tape_small_volume : tape := [flt one; flt small_draw; int 0].

(** The DOGE/USD simulator of the table and a tape on which [gauss] returns
    two standard deviations up, twice. *)
Definition two : float := Eval vm_compute in of_decimal false 2 0.
Definition doge_start : float := Eval vm_compute in of_decimal false 8 2.
Definition sim_doge : PriceSimulator :=
  {| symbol := "DOGE/USD"; price := doge_start;
     volatility := default_volatility; trade_id := 1000000 |}.
Definition tape_two_sigma : tape :=
  [flt two; flt one; int 0; flt two; flt one; int 0].

(** The command lines of the scenarios: 500 records at 100 per second in
    dry-run mode, the same without a limit, and a run against the queue. *)
Definition hundred : float := Eval vm_compute in of_decimal false 100 0.
Definition args_queue : Args :=
  {| broker := "localhost:9093"; topic := "trades";
     symbols := "BTC/USD,ETH/USD,SOL/USD,DOGE/USD";
     rate := hundred; count := 0; dry_run := false |}.
Definition wall_clock (i : nat) : string := "2026-01-01 00:00:00.000".

(** A negative and a NaN initial price, and a tape that first serves the
    [randint] of the constructor. *)
Definition minus_five : float := Eval vm_compute in of_decimal true 5 0.
Definition tape_fresh : tape := [int 0; flt one; flt one; int 0].

(** A simulator as it would be if the rounded record price were stored. *)
Definition with_price (s : PriceSimulator) (p : float) : PriceSimulator :=
  {| symbol := symbol s; price := p;
     volatility := volatility s; trade_id := trade_id s |}.

(** A simulator whose price is NaN. *)
Definition sim_nan : PriceSimulator :=
  {| symbol := "FOO/USD"; price := S754_nan;
     volatility := default_volatility; trade_id := 1000000 |}.

(** ** Observations on generators, traces and symbol lists *)

Section Generator.
Context {G : Type} `{RandomSource G}.

(** The first [n] values of the generator [generate_trades], with the
    simulators and the random source after them; [clock i] is the clock
    reading of the [i]-th value. *)
Fixpoint generate_n (n : nat) (symbols : list string)
    (simulators : dict PriceSimulator) (g : G) (clock : nat -> string)
    : result (list Trade.t * dict PriceSimulator * G) :=
  match n with
  | O => Ok ([], simulators, g)
  | S n' =>
      '(trade, simulators1, g1) <-
         generate_trades symbols simulators g (clock O) ;;
      '(trades, simulators2, g2) <-
         generate_n n' symbols simulators1 g1 (fun i => clock (S i)) ;;
      Ok (trade :: trades, simulators2, g2)
  end.

End Generator.

(** The trade ids of the records of one symbol, in order. *)
Definition ids_for (sym : string) (trades : list Trade.t) : list Z :=
  map Trade.trade_id
      (filter (fun t => String.eqb (Trade.symbol t) sym) trades).

(** The counters shown by the progress lines of a trace. *)
Definition progress_lines (tr : list event) : list Z :=
  flat_map (fun ev =>
              match ev with
              | Stdout (Progress k _) => [k]
              | _ => []
              end) tr.

(** The topics of the sends of a trace. *)
Definition sent_topics (tr : list event) : list string :=
  flat_map (fun ev =>
              match ev with
              | KafkaSend tp _ => [tp]
              | _ => []
              end) tr.

Definition is_stdout_trade (ev : event) : bool :=
  match ev with
  | StdoutTrade _ => true
  | _ => false
  end.

(** The events of the [finally] clause. *)
Definition is_shutdown (ev : event) : bool :=
  match ev with
  | KafkaFlush | KafkaClose | Stdout ProducerClosed => true
  | _ => false
  end.

(** Whether the character [c] occurs in [s]. *)
Fixpoint contains (c : ascii) (s : string) : bool :=
  match s with
  | EmptyString => false
  | String c' rest => Ascii.eqb c' c || contains c rest
  end.

(** The number of occurrences of [c] in [s]. *)
Fixpoint occurrences (c : ascii) (s : string) : nat :=
  match s with
  | EmptyString => O
  | String c' rest =>
      if Ascii.eqb c' c then S (occurrences c rest) else occurrences c rest
  end.

Definition first_is_space (s : string) : bool :=
  match s with
  | String c _ => is_space c
  | EmptyString => false
  end.

Fixpoint last_is_space (s : string) : bool :=
  match s with
  | EmptyString => false
  | String c EmptyString => is_space c
  | String _ rest => last_is_space rest
  end.

(** A symbol as the command line accepts it unchanged: no comma and no
    white space at either end. *)
Definition clean_symbol (s : string) : bool :=
  negb (contains ","%char s) && negb (first_is_space s)
  && negb (last_is_space s).

(** The default symbol list of the module. *)
(** The strings of ASCII characters: on these the white space that
    [str.strip] removes is the one of [is_space]. *)
Fixpoint ascii_only (s : string) : bool :=
  match s with
  | EmptyString => true
  | String c rest => (nat_of_ascii c <? 128)%nat && ascii_only rest
  end.

Definition DEFAULT_SYMBOLS : list string :=
  ["BTC/USD"%string; "ETH/USD"%string; "SOL/USD"%string; "DOGE/USD"%string].

(** Every simulator is stored under its own symbol. *)
Definition keyed_by_symbol (d : dict PriceSimulator) : Prop :=
  forall k v, dict_get d k = Some v -> symbol v = k.


(** An event of the body of the sending loop for the topic [tp]: a send to
    [tp], a progress line or the pacing sleep. *)
Definition loop_event (tp : string) (ev : event) : bool :=
  match ev with
  | KafkaSend tp' _ => String.eqb tp' tp
  | Stdout (Progress _ _) | Sleep _ => true
  | _ => false
  end.

(** The start-up lines of [main], last line first. *)
Definition banner (args : Args) : list event :=
  [Stdout Blank; Stdout (RateLine (rate args));
   Stdout (SymbolsLine (map strip (split ","%char (symbols args))));
   Stdout (TopicLine (topic args));
   Stdout (BrokerLine (broker args)); Stdout Starting].

(** A scripted run against the queue with a limit of 250 records. *)
Definition args_250 : Args :=
  {| broker := "localhost:9093"; topic := "trades";
     symbols := "BTC/USD,ETH/USD,SOL/USD,DOGE/USD";
     rate := hundred; count := 250; dry_run := false |}.

(** Command lines with a zero rate and with a negative limit. *)
Definition args_zero_rate (dry : bool) : Args :=
  {| broker := "localhost:9093"; topic := "trades";
     symbols := "BTC/USD,ETH/USD"; rate := zero; count := 3; dry_run := dry |}.
Definition args_negative_count (dry : bool) : Args :=
  {| broker := "localhost:9093"; topic := "trades";
     symbols := "BTC/USD,ETH/USD"; rate := hundred; count := -5;
     dry_run := dry |}.

(** Two symbols, one of them outside the price table, and their simulators. *)
Definition symbols_two : list string :=
  ["BTC/USD"%string; "FOO/USD"%string].
Definition sims_two : dict PriceSimulator :=
  fst (create_simulators symbols_two tape_fresh).

(** The symbols of a list, each once, in the order of their first
    occurrence: the keys of a dictionary filled in the order of the list. *)
Fixpoint first_seen (l : list string) : list string :=
  match l with
  | [] => []
  | x :: rest => x :: filter (fun y => negb (String.eqb y x)) (first_seen rest)
  end.

(** A tape whose first integer draw is 234567. *)
Definition tape_counter : tape := [int 234567; flt one; flt one; int 0].


(** ** The sending loop and what reaches it from outside

    The [try] statement of [main] also handles what does not come from the
    program itself: an interrupt from the keyboard, which can arrive at any
    point of an iteration, and a send that the queue client refuses.  One
    such event at most ends the loop; the handlers ([except], [finally]) run
    undisturbed, and an event of the trace is either complete or absent. *)

(** Where in an iteration the interrupt arrives: while the generator
    produces the record; during the send, before [sent] is incremented; after
    the increment, before the progress line; during the sleep; after the
    sleep, at the test of the limit. *)
Inductive phase : Type :=
| InGenerator
| InSend
| BeforeProgress
| InSleep
| AfterSleep.

Inductive disturbance : Type :=
| Quiet
| SendRaises
| Interrupt (p : phase).

(** How the [try] statement was left: not yet; by [break]; by an exception
    of the program; by an exception of [producer.send]; by the [except]
    branch, with the value of [sent] that it prints. *)
Inductive ending : Type :=
| StillRunning
| LimitReached
| Raised (e : exn)
| SendFailed
| Interrupted (sent : nat).

Definition phase_eqb (p q : phase) : bool :=
  match p, q with
  | InGenerator, InGenerator | InSend, InSend
  | BeforeProgress, BeforeProgress | InSleep, InSleep
  | AfterSleep, AfterSleep => true
  | _, _ => false
  end.

Definition strikes (d : disturbance) (p : phase) : bool :=
  match d with
  | Interrupt q => phase_eqb q p
  | _ => false
  end.

(** What is printed and done on the way out of the [try] statement: the line
    of the [except] branch after an interrupt, then the [finally] clause. *)
Definition closing (en : ending) : list event :=
  match en with
  | StillRunning => []
  | Interrupted n => Stdout (InterruptedLine (Z.of_nat n)) :: shutdown
  | LimitReached | Raised _ | SendFailed => shutdown
  end.

Definition ending_of (st : status) : ending :=
  match st with
  | RUNNING => StillRunning
  | STOPPED => LimitReached
  | CRASHED e => Raised e
  end.

Section Guarded.
Context {G : Type} `{RandomSource G}.

(** The [try] statement around the sending loop, after [sent] records;
    [env i] is what reaches iteration [i] from outside. *)
Fixpoint guarded_send_loop (fuel : nat) (args : Args) (symbols : list string)
    (clock : nat -> string) (interval : float) (env : nat -> disturbance)
    (sent : nat) (simulators : dict PriceSimulator) (g : G)
    (trace : list event) : ending * list event :=
  match fuel with
  | O => (StillRunning, rev trace)
  | S fuel' =>
      let leave (en : ending) (tr : list event) := (en, rev tr ++ closing en) in
      if strikes (env sent) InGenerator then leave (Interrupted sent) trace
      else
      match generate_trades symbols simulators g (clock sent) with
      | Raise e => leave (Raised e) trace
      | Ok (trade, simulators1, g1) =>
          match env sent with
          | SendRaises => leave SendFailed trace
          | d =>
              let trace1 := KafkaSend (topic args) trade :: trace in
              if strikes d InSend then leave (Interrupted sent) trace1
              else
              let sent1 := S sent in
              if strikes d BeforeProgress then leave (Interrupted sent1) trace1
              else
              let trace2 :=
                if Z.of_nat sent1 mod 100 =? 0
                then Stdout (Progress (Z.of_nat sent1) trade) :: trace1
                else trace1 in
              match time_sleep interval with
              | Raise e => leave (Raised e) trace2
              | Ok _ =>
                  if strikes d InSleep then leave (Interrupted sent1) trace2
                  else
                  let trace3 := Sleep interval :: trace2 in
                  if strikes d AfterSleep then leave (Interrupted sent1) trace3
                  else
                  if negb (count args =? 0) && (Z.of_nat sent1 >=? count args)
                  then leave LimitReached trace3
                  else guarded_send_loop fuel' args symbols clock interval env
                         sent1 simulators1 g1 trace3
              end
          end
      end
  end.

(** [main] from the successful connection on, with the outside events. *)
Definition connected_main (fuel : nat) (args : Args) (clock : nat -> string)
    (env : nat -> disturbance) (g : G) : ending * list event :=
  let symbol_list := map strip (split ","%char (symbols args)) in
  let '(simulators, g1) := create_simulators symbol_list g in
  let trace0 :=
    Stdout (ConnectedTo (broker args)) :: KafkaConnect (broker args)
    :: banner args in
  match py_inverse (rate args) with
  | Raise e => (Raised e, rev trace0)
  | Ok interval =>
      guarded_send_loop fuel args (dict_keys simulators) clock interval env O
        simulators g1 trace0
  end.

End Guarded.

(** An interrupt during the sleep of the third iteration, and a send that
    fails in the second. *)
Definition env_interrupt (i : nat) : disturbance :=
  if (i =? 2)%nat then Interrupt InSleep else Quiet.
Definition env_send_fails (i : nat) : disturbance :=
  if (i =? 1)%nat then SendRaises else Quiet.

(* ===================================================================== *)
(** * Part II: properties *)
(* ===================================================================== *)

(** ** The float model against the interpreter

    Values that the interpreter prints for the same expressions:
    [0.1 + 0.2 = 0.30000000000000004], [round(2.675, 2) = 2.67],
    [round(0.125, 2) = 0.12], [round(5e-09, 8) = 1e-08],
    [round(1e-09, 8) = 0.0], [0.0001 * (1 + -0.0002) = 9.998e-05],
    [45000.0 * (1 + 0.0002) = 45009.0], [max(nan, 0.0001) = nan] and
    [max(0.0001, nan) = 0.0001]. *)

Example literal_tenth : volume_scale = S754_finite false 7205759403792794 (-56).
Proof. reflexivity. Qed.

Example sum_tenth_fifth :
  add (of_decimal false 1 1) (of_decimal false 2 1)
  = of_decimal false 30000000000000004 17.
Proof. vm_compute. reflexivity. Qed.

Example round_2675 :
  round_value (of_decimal false 2675 3) 2 = of_decimal false 267 2.
Proof. vm_compute. reflexivity. Qed.

Example round_tie_to_even :
  round_value (of_decimal false 125 3) 2 = of_decimal false 12 2.
Proof. vm_compute. reflexivity. Qed.

Example round_half_unit : round_value half_unit8 8 = of_decimal false 1 8.
Proof. vm_compute. reflexivity. Qed.

Example round_below_half_unit : round_value (of_decimal false 1 9) 8 = zero.
Proof. vm_compute. reflexivity. Qed.

Example step_down_from_floor :
  mul price_floor (add one (add zero (mul minus_one default_volatility)))
  = of_decimal false 9998 8.
Proof. vm_compute. reflexivity. Qed.

Example step_up_from_btc :
  mul btc_start (add one (add zero (mul one default_volatility)))
  = of_decimal false 45009 0.
Proof. vm_compute. reflexivity. Qed.

Example max_keeps_nan :
  py_max S754_nan price_floor = S754_nan /\
  py_max price_floor S754_nan = price_floor.
Proof. split; reflexivity. Qed.

(** ** Binary digits *)
Lemma digits2_bounds p :
  2 ^ (Zpos (digits2_pos p) - 1) <= Zpos p < 2 ^ Zpos (digits2_pos p).
Proof.
  induction p as [p IH | p IH |]; simpl digits2_pos.
  - rewrite Pos2Z.inj_succ.
    replace (Z.succ (Zpos (digits2_pos p)) - 1) with (Z.succ (Zpos (digits2_pos p) - 1)) by lia.
    rewrite !Z.pow_succ_r by lia. lia.
  - rewrite Pos2Z.inj_succ.
    replace (Z.succ (Zpos (digits2_pos p)) - 1) with (Z.succ (Zpos (digits2_pos p) - 1)) by lia.
    rewrite !Z.pow_succ_r by lia. lia.
  - simpl. lia.
Qed.

Lemma Zdigits2_bounds m :
  0 < m -> 2 ^ (Zdigits2 m - 1) <= m < 2 ^ Zdigits2 m.
Proof.
  destruct m as [|p|p]; try lia. intros _. apply digits2_bounds.
Qed.

Lemma Zdigits2_pos m : 0 < m -> 0 < Zdigits2 m.
Proof. destruct m; simpl; lia. Qed.

Lemma Zdigits2_unique m d :
  0 < m -> 2 ^ (d - 1) <= m < 2 ^ d -> Zdigits2 m = d.
Proof.
  intros Hm [Hlo Hhi].
  pose proof (Zdigits2_bounds m Hm) as [Blo Bhi].
  pose proof (Zdigits2_pos m Hm) as Hd.
  assert (0 < d).
  { destruct (Z_lt_le_dec 0 d) as [|Hn]; trivial.
    destruct (Z.eq_dec d 0) as [-> | Hd0]; [simpl in Hhi; lia|].
    rewrite (Z.pow_neg_r 2 d) in Hhi; lia. }
  destruct (Z.lt_total (Zdigits2 m) d) as [Hlt | [Heq | Hgt]]; trivial.
  - assert (2 ^ Zdigits2 m <= 2 ^ (d - 1)) by (apply Z.pow_le_mono_r; lia). lia.
  - assert (2 ^ d <= 2 ^ (Zdigits2 m - 1)) by (apply Z.pow_le_mono_r; lia). lia.
Qed.

Lemma Zdigits2_mono a b : 0 < a -> a <= b -> Zdigits2 a <= Zdigits2 b.
Proof.
  intros Ha Hab.
  pose proof (Zdigits2_bounds a Ha) as [Alo _].
  pose proof (Zdigits2_bounds b ltac:(lia)) as [_ Bhi].
  pose proof (Zdigits2_pos b ltac:(lia)).
  destruct (Z_lt_le_dec (Zdigits2 b) (Zdigits2 a)) as [Hlt|]; try lia.
  assert (2 ^ Zdigits2 b <= 2 ^ (Zdigits2 a - 1)) by (apply Z.pow_le_mono_r; lia). lia.
Qed.

Lemma Zdigits2_shift m j :
  0 < m -> 0 <= j -> Zdigits2 (m * 2 ^ j) = Zdigits2 m + j.
Proof.
  intros Hm Hj.
  pose proof (Zdigits2_bounds m Hm) as [Blo Bhi].
  pose proof (Zdigits2_pos m Hm).
  assert (0 < 2 ^ j) by (apply Z.pow_pos_nonneg; lia).
  apply Zdigits2_unique; try nia.
  replace (Zdigits2 m + j - 1) with (Zdigits2 m - 1 + j) by lia.
  rewrite !Z.pow_add_r by lia. split; nia.
Qed.

Lemma Zdigits2_div m k :
  0 < m -> 0 <= k -> 0 < m / 2 ^ k -> Zdigits2 (m / 2 ^ k) = Zdigits2 m - k.
Proof.
  intros Hm Hk Hq.
  pose proof (Zdigits2_bounds m Hm) as [Blo Bhi].
  pose proof (Zdigits2_pos m Hm) as Hd.
  assert (P2 : 0 < 2 ^ k) by (apply Z.pow_pos_nonneg; lia).
  assert (Hge : 2 ^ k <= m).
  { destruct (Z_lt_le_dec m (2 ^ k)) as [Hlt|]; trivial.
    rewrite Z.div_small in Hq; lia. }
  assert (Hkd : k < Zdigits2 m).
  { destruct (Z_lt_le_dec k (Zdigits2 m)) as [|Hle]; trivial.
    assert (2 ^ Zdigits2 m <= 2 ^ k) by (apply Z.pow_le_mono_r; lia). lia. }
  apply Zdigits2_unique; trivial. split.
  - apply Z.div_le_lower_bound; trivial.
    rewrite <- Z.pow_add_r by lia.
    replace (k + (Zdigits2 m - k - 1)) with (Zdigits2 m - 1) by lia. trivial.
  - apply Z.div_lt_upper_bound; trivial.
    rewrite <- Z.pow_add_r by lia.
    replace (k + (Zdigits2 m - k)) with (Zdigits2 m) by lia. trivial.
Qed.

(** ** Right shifts with round and sticky bits *)
Lemma shr_1_m mrs : 0 <= shr_m mrs -> shr_m (shr_1 mrs) = shr_m mrs / 2.
Proof.
  destruct mrs as [m r s]; cbn [shr_m]. intros Hm.
  destruct m as [|[p|p|]|p]; cbn [shr_1 shr_m]; try lia; try reflexivity.
  - apply Z.div_unique with (r := 1); lia.
  - apply Z.div_unique with (r := 0); lia.
Qed.

Lemma iter_shr_1_m n : forall mrs,
  0 <= shr_m mrs -> shr_m (iter_pos shr_1 n mrs) = shr_m mrs / 2 ^ Zpos n.
Proof.
  assert (Hnn : forall mrs, 0 <= shr_m mrs -> 0 <= shr_m (shr_1 mrs)).
  { intros mrs H. rewrite shr_1_m by trivial. apply Z.div_pos; lia. }
  induction n as [n IH | n IH |]; intros mrs Hm; cbn [iter_pos];
    try assert (P2 : 0 < 2 ^ Zpos n) by (apply Z.pow_pos_nonneg; lia).
  - assert (0 <= shr_m (iter_pos shr_1 n (shr_1 mrs))).
    { rewrite IH by auto. apply Z.div_pos; auto. }
    rewrite IH by trivial. rewrite IH by auto. rewrite shr_1_m by trivial.
    rewrite !Z.div_div by lia.
    f_equal. replace (Zpos n~1) with (1 + Zpos n + Zpos n) by lia.
    rewrite !Z.pow_add_r by lia. change (2 ^ 1) with 2. ring.
  - assert (0 <= shr_m (iter_pos shr_1 n mrs)).
    { rewrite IH by auto. apply Z.div_pos; auto. }
    rewrite IH by trivial. rewrite IH by auto.
    rewrite !Z.div_div by lia.
    f_equal. replace (Zpos n~0) with (Zpos n + Zpos n) by lia.
    rewrite !Z.pow_add_r by lia. ring.
  - rewrite shr_1_m by trivial. reflexivity.
Qed.

Lemma shr_1_exact b :
  0 <= b ->
  shr_1 (Build_shr_record (b * 2) false false) = Build_shr_record b false false.
Proof.
  destruct b as [|p|p]; intros Hb; try lia; try reflexivity.
  rewrite (Z.mul_comm (Zpos p) 2). reflexivity.
Qed.

Lemma iter_shr_1_exact n : forall a,
  0 <= a ->
  iter_pos shr_1 n (Build_shr_record (a * 2 ^ Zpos n) false false)
  = Build_shr_record a false false.
Proof.
  induction n as [n IH | n IH |]; intros a Ha; cbn [iter_pos].
  - assert (0 < 2 ^ Zpos n) by (apply Z.pow_pos_nonneg; lia).
    replace (a * 2 ^ Zpos n~1) with (a * 2 ^ Zpos n * 2 ^ Zpos n * 2).
    2:{ replace (Zpos n~1) with (Zpos n + Zpos n + 1) by lia.
        rewrite !Z.pow_add_r by lia. change (2 ^ 1) with 2. ring. }
    rewrite shr_1_exact by nia. rewrite IH by nia. apply IH; trivial.
  - assert (0 < 2 ^ Zpos n) by (apply Z.pow_pos_nonneg; lia).
    replace (a * 2 ^ Zpos n~0) with (a * 2 ^ Zpos n * 2 ^ Zpos n).
    2:{ replace (Zpos n~0) with (Zpos n + Zpos n) by lia.
        rewrite !Z.pow_add_r by lia. ring. }
    rewrite IH by nia. apply IH; trivial.
  - change (2 ^ 1) with 2. apply shr_1_exact; trivial.
Qed.


(** ** Rounding to binary64 *)
Local Abbreviation fexp := (SpecFloat.fexp prec emax).

Lemma fexp_eq e : fexp e = Z.max (e - 53) (-1074).
Proof. reflexivity. Qed.

Lemma Zdigits2_lower m d : 0 <= d -> 2 ^ d <= m -> d + 1 <= Zdigits2 m.
Proof.
  intros Hd Hm.
  assert (0 < 2 ^ d) by (apply Z.pow_pos_nonneg; lia).
  pose proof (Zdigits2_bounds m ltac:(lia)) as [_ Bhi].
  pose proof (Zdigits2_pos m ltac:(lia)).
  destruct (Z_lt_le_dec d (Zdigits2 m)) as [|Hle]; try lia.
  assert (2 ^ Zdigits2 m <= 2 ^ d) by (apply Z.pow_le_mono_r; lia). lia.
Qed.

Lemma Zdigits2_upper m d : 0 < m -> m < 2 ^ d -> Zdigits2 m <= d.
Proof.
  intros Hm Hd.
  pose proof (Zdigits2_bounds m Hm) as [Blo _].
  pose proof (Zdigits2_pos m Hm).
  destruct (Z_lt_le_dec d (Zdigits2 m)) as [Hlt|]; try lia.
  assert (0 <= d).
  { destruct (Z_lt_le_dec d 0) as [Hn|]; trivial. rewrite Z.pow_neg_r in Hd; lia. }
  assert (2 ^ d <= 2 ^ (Zdigits2 m - 1)) by (apply Z.pow_le_mono_r; lia). lia.
Qed.

Lemma shr_record_of_loc_m m l : shr_m (shr_record_of_loc m l) = m.
Proof. destruct l as [|[]]; reflexivity. Qed.

Lemma shr_fexp_spec m e l :
  0 < m -> e <= fexp (Zdigits2 m + e) ->
  exists mrs,
    shr_fexp prec emax m e l = (mrs, fexp (Zdigits2 m + e)) /\
    shr_m mrs = m / 2 ^ (fexp (Zdigits2 m + e) - e).
Proof.
  intros Hm He. unfold shr_fexp, shr.
  remember (fexp (Zdigits2 m + e) - e) as k eqn:Hk.
  destruct k as [|p|p]; try lia.
  - exists (shr_record_of_loc m l). split.
    + f_equal. lia.
    + rewrite shr_record_of_loc_m. change (2 ^ 0) with 1. now rewrite Z.div_1_r.
  - eexists. split.
    + f_equal. lia.
    + rewrite iter_shr_1_m; rewrite shr_record_of_loc_m; [reflexivity | lia].
Qed.

Lemma shr_fexp_zero e l : shr_m (fst (shr_fexp prec emax 0 e l)) = 0.
Proof.
  unfold shr_fexp, shr.
  destruct (fexp (Zdigits2 0 + e) - e) as [|p|p]; cbn [fst];
    try apply shr_record_of_loc_m.
  rewrite iter_shr_1_m; rewrite shr_record_of_loc_m; [apply Z.div_0_l | lia].
  assert (0 < 2 ^ Zpos p) by (apply Z.pow_pos_nonneg; lia). lia.
Qed.

Lemma round_nearest_even_bounds m l :
  m <= round_nearest_even m l <= m + 1.
Proof.
  destruct l as [|[]]; cbn [round_nearest_even]; try lia.
  destruct (Z.even m); lia.
Qed.

(** What [binary_round_aux] computes for a positive mantissa: the mantissa is
    shifted to the target exponent, rounded to nearest-even, and renormalised. *)
Lemma binary_round_aux_cases s m e l :
  0 < m -> e <= fexp (Zdigits2 m + e) ->
  let E := fexp (Zdigits2 m + e) in
  exists m1,
    m / 2 ^ (E - e) <= m1 <= m / 2 ^ (E - e) + 1 /\
    ((m1 = 0 /\ binary_round_aux prec emax s m e l = S754_zero s) \/
     (0 < m1 /\
      Zdigits2 m1 + E <= Z.max (Zdigits2 m + e) E + 1 /\
      exists p,
        canonical_mantissa prec emax p (fexp (Zdigits2 m1 + E)) = true /\
        binary_round_aux prec emax s m e l =
          if fexp (Zdigits2 m1 + E) <=? emax - prec
          then S754_finite s p (fexp (Zdigits2 m1 + E))
          else S754_infinity s)).
Proof.
  intros Hm He E.
  destruct (shr_fexp_spec m e l Hm He) as (mrs & Hshr & Hmrs).
  fold E in Hshr, Hmrs.
  unfold binary_round_aux. rewrite Hshr.
  set (m1 := round_nearest_even (shr_m mrs) (loc_of_shr_record mrs)).
  pose proof (round_nearest_even_bounds (shr_m mrs) (loc_of_shr_record mrs)) as Hb.
  fold m1 in Hb. rewrite Hmrs in Hb. clearbody m1.
  assert (P2 : 0 < 2 ^ (E - e)) by (apply Z.pow_pos_nonneg; lia).
  assert (Hq : 0 <= m / 2 ^ (E - e)) by (apply Z.div_pos; lia).
  pose proof (Zdigits2_bounds m Hm) as [Mlo Mhi].
  pose proof (Zdigits2_pos m Hm) as Mpos.
  exists m1. split; [exact Hb|].
  destruct (Z.eq_dec m1 0) as [Hz | Hnz].
  - left. split; trivial. rewrite Hz.
    pose proof (shr_fexp_zero E loc_Exact) as Hsz.
    destruct (shr_fexp prec emax 0 E loc_Exact) as [mrs2 e2]. cbn [fst] in Hsz.
    now rewrite Hsz.
  - right. assert (Hm1 : 0 < m1) by lia. split; trivial.
    assert (Hdm1 : Zdigits2 m1 + E <= Z.max (Zdigits2 m + e) E + 1 /\
                   E <= fexp (Zdigits2 m1 + E)).
    { destruct (Z.eq_dec (m / 2 ^ (E - e)) 0) as [Hq0 | Hq0].
      - assert (m1 = 1) by lia. subst m1.
        assert (m < 2 ^ (E - e)).
        { apply Z.div_small_iff in Hq0; lia. }
        assert (Zdigits2 m <= E - e) by (apply Zdigits2_upper; lia).
        change (Zdigits2 1) with 1.
        unfold E in *. rewrite !fexp_eq in *. lia.
      - assert (Hq1 : 0 < m / 2 ^ (E - e)) by lia.
        pose proof (Zdigits2_div m (E - e) Hm ltac:(lia) Hq1) as Hdq.
        pose proof (Zdigits2_mono _ _ Hq1 (proj1 Hb)) as Hmono.
        pose proof (Zdigits2_bounds _ Hq1) as [_ Qhi].
        pose proof (Zdigits2_pos _ Hq1) as Qpos.
        assert (Zdigits2 m1 <= Zdigits2 (m / 2 ^ (E - e)) + 1).
        { apply Zdigits2_upper; trivial.
          rewrite Z.pow_add_r by lia. change (2 ^ 1) with 2. lia. }
        unfold E in *. rewrite !fexp_eq in *. lia. }
    destruct Hdm1 as [Hd1 Hpre]. split; trivial.
    destruct (shr_fexp_spec m1 E loc_Exact Hm1 Hpre) as (mrs2 & Hshr2 & Hmrs2).
    rewrite Hshr2.
    set (E2 := fexp (Zdigits2 m1 + E)) in *.
    pose proof (Zdigits2_bounds m1 Hm1) as [M1lo M1hi].
    pose proof (Zdigits2_pos m1 Hm1) as M1pos.
    assert (Hk2 : E2 - E <= Zdigits2 m1 - 1).
    { unfold E2, E. rewrite !fexp_eq. lia. }
    assert (0 < 2 ^ (E2 - E)) by (apply Z.pow_pos_nonneg; lia).
    assert (Hq2 : 0 < m1 / 2 ^ (E2 - E)).
    { apply Z.div_str_pos. split; trivial.
      apply Z.le_trans with (2 ^ (Zdigits2 m1 - 1)); trivial.
      apply Z.pow_le_mono_r; lia. }
    pose proof (Zdigits2_div m1 (E2 - E) Hm1 ltac:(lia) Hq2) as Hd2.
    rewrite Hmrs2.
    destruct (m1 / 2 ^ (E2 - E)) as [|p|p] eqn:Hp; try lia.
    exists p. split; [|reflexivity].
    unfold canonical_mantissa. apply Z.eqb_eq.
    cbn [Zdigits2] in Hd2. rewrite Hd2.
    replace (Zdigits2 m1 - (E2 - E) + E2) with (Zdigits2 m1 + E) by lia.
    reflexivity.
Qed.


Lemma binary_round_aux_ok s m e l :
  0 < m -> e <= fexp (Zdigits2 m + e) ->
  valid (binary_round_aux prec emax s m e l) = true /\
  has_sign s (binary_round_aux prec emax s m e l) = true /\
  (fexp (Zdigits2 m + e) - e < Zdigits2 m ->
     is_zero (binary_round_aux prec emax s m e l) = false) /\
  (Zdigits2 m + e <= 1023 ->
     is_finite (binary_round_aux prec emax s m e l) = true).
Proof.
  intros Hm He.
  destruct (binary_round_aux_cases s m e l Hm He)
    as (m1 & Hb & [(Hz & ->) | (Hm1 & Hd & p & Hcan & ->)]).
  - cbn. rewrite Bool.eqb_reflx. repeat split; trivial.
    intros Hk. exfalso.
    pose proof (Zdigits2_bounds m Hm) as [Mlo _].
    assert (0 < m / 2 ^ (fexp (Zdigits2 m + e) - e)); [|lia].
    apply Z.div_str_pos. split; [apply Z.pow_pos_nonneg; lia|].
    apply Z.le_trans with (2 ^ (Zdigits2 m - 1)); trivial.
    apply Z.pow_le_mono_r; lia.
  - destruct (Z.leb_spec (fexp (Zdigits2 m1 + fexp (Zdigits2 m + e))) (emax - prec))
      as [Hle | Hgt].
    + cbn. unfold bounded. rewrite Hcan, Bool.eqb_reflx.
      apply Z.leb_le in Hle. rewrite Hle. repeat split; trivial.
    + cbn. rewrite Bool.eqb_reflx. repeat split; trivial.
      intros HD. exfalso. unfold emax, prec in Hgt.
      rewrite !fexp_eq in *. lia.
Qed.

Lemma binary_round_aux_exact s m0 e0 j :
  bounded prec emax m0 e0 = true -> 0 <= j ->
  binary_round_aux prec emax s (Zpos m0 * 2 ^ j) (e0 - j) loc_Exact
  = S754_finite s m0 e0.
Proof.
  intros Hb Hj. unfold bounded in Hb. apply andb_prop in Hb as [Hcan Hle].
  unfold canonical_mantissa in Hcan. apply Z.eqb_eq in Hcan.
  assert (Hshr : shr_fexp prec emax (Zpos m0 * 2 ^ j) (e0 - j) loc_Exact
                 = (Build_shr_record (Zpos m0) false false, e0)).
  { unfold shr_fexp. rewrite Zdigits2_shift by lia. cbn [Zdigits2].
    replace (Zpos (digits2_pos m0) + j + (e0 - j)) with (Zpos (digits2_pos m0) + e0) by lia.
    rewrite Hcan. replace (e0 - (e0 - j)) with j by lia.
    unfold shr, shr_record_of_loc. destruct j as [|p|p]; try lia.
    - change (2 ^ 0) with 1. rewrite Z.mul_1_r. f_equal. lia.
    - rewrite iter_shr_1_exact by lia. f_equal. lia. }
  unfold binary_round_aux. rewrite Hshr.
  cbn [shr_m loc_of_shr_record round_nearest_even].
  assert (Hshr2 : shr_fexp prec emax (Zpos m0) e0 loc_Exact
                  = (Build_shr_record (Zpos m0) false false, e0)).
  { unfold shr_fexp. cbn [Zdigits2]. rewrite Hcan, Z.sub_diag. reflexivity. }
  rewrite Hshr2. cbn [shr_m]. now rewrite Hle.
Qed.

Lemma valid_finite_inv s m e :
  valid (S754_finite s m e) = true ->
  Z.max (Zpos (digits2_pos m) + e - 53) (-1074) = e /\ e <= 971.
Proof.
  unfold valid, valid_binary, bounded, canonical_mantissa.
  intros H. apply andb_prop in H as [Hc Hl].
  apply Z.eqb_eq in Hc. apply Z.leb_le in Hl.
  rewrite fexp_eq in Hc. unfold emax, prec in Hl. lia.
Qed.

Lemma mul_valid x y :
  valid x = true -> valid y = true -> valid (mul x y) = true.
Proof.
  intros Hx Hy.
  destruct x as [sx | sx | | sx mx ex], y as [sy | sy | | sy my ey];
    try reflexivity.
  apply valid_finite_inv in Hx as [Hx1 Hx2], Hy as [Hy1 Hy2].
  unfold mul. cbn [SFmul].
  apply binary_round_aux_ok; [lia|].
  pose proof (digits2_bounds mx) as [Xlo _].
  pose proof (digits2_bounds my) as [Ylo _].
  assert (Hd : Zpos (digits2_pos mx) + Zpos (digits2_pos my) - 1
               <= Zdigits2 (Zpos (mx * my))).
  { replace (Zpos (digits2_pos mx) + Zpos (digits2_pos my) - 1)
      with ((Zpos (digits2_pos mx) - 1) + (Zpos (digits2_pos my) - 1) + 1) by lia.
    apply Zdigits2_lower; [lia|].
    rewrite Z.pow_add_r by lia. rewrite Pos2Z.inj_mul.
    apply Z.mul_le_mono_nonneg; trivial; apply Z.pow_nonneg; lia. }
  rewrite fexp_eq. lia.
Qed.

Lemma iter_xO m d : Zpos (Pos.iter xO m d) = Zpos m * 2 ^ Zpos d.
Proof.
  induction d as [|d IH] using Pos.peano_ind.
  - cbn [Pos.iter]. change (2 ^ 1) with 2. lia.
  - rewrite Pos.iter_succ, Pos2Z.inj_succ, Z.pow_succ_r by lia.
    rewrite Pos2Z.inj_xO, IH. ring.
Qed.

Lemma binary_round_ok s m e :
  valid (binary_round prec emax s m e) = true /\
  has_sign s (binary_round prec emax s m e) = true.
Proof.
  unfold binary_round, shl_align.
  destruct (fexp (Zpos (digits2_pos m) + e) - e) as [|d|d] eqn:Hk.
  - split; apply binary_round_aux_ok; cbn [Zdigits2]; lia.
  - split; apply binary_round_aux_ok; cbn [Zdigits2]; lia.
  - assert (Hpre : fexp (Zpos (digits2_pos m) + e)
                   <= fexp (Zdigits2 (Zpos (Pos.iter xO m d))
                            + fexp (Zpos (digits2_pos m) + e))).
    { rewrite iter_xO, Zdigits2_shift by lia. cbn [Zdigits2].
      replace (Zpos (digits2_pos m) + Zpos d + fexp (Zpos (digits2_pos m) + e))
        with (Zpos (digits2_pos m) + e) by lia. lia. }
    split; apply binary_round_aux_ok; trivial; lia.
Qed.

Lemma add_valid x y :
  valid x = true -> valid y = true -> valid (add x y) = true.
Proof.
  intros Hx Hy.
  destruct x as [sx | sx | | sx mx ex], y as [sy | sy | | sy my ey];
    try reflexivity; try assumption;
    try (destruct sx, sy; reflexivity).
  unfold add. cbn [SFadd]. unfold binary_normalize.
  match goal with |- context [match ?z with Z0 => _ | Zpos _ => _ | Zneg _ => _ end] =>
    destruct z end; try reflexivity; apply binary_round_ok.
Qed.


Lemma div_core8 n :
  0 < n ->
  let e' := Z.min (fexp (Zdigits2 n - 27)) 0 in
  SFdiv_core_binary prec emax n 0 (10 ^ Z.of_nat 8) 0
  = ((n * 2 ^ (- e')) / 100000000, e',
     new_location 100000000 ((n * 2 ^ (- e')) mod 100000000)).
Proof.
  intros Hn e'. unfold SFdiv_core_binary.
  change (10 ^ Z.of_nat 8) with 100000000.
  change (Zdigits2 100000000) with 27.
  replace (Z.min (fexp (Zdigits2 n + 0 - (27 + 0))) (0 - 0)) with e'
    by (unfold e'; f_equal; f_equal; lia).
  replace (0 - 0 - e') with (- e') by lia.
  assert (He' : e' <= 0) by (unfold e'; lia).
  assert (Hm : match - e' with
               | 0 => n
               | Zpos _ => Z.shiftl n (- e')
               | Zneg _ => 0
               end = n * 2 ^ (- e')).
  { destruct (- e') as [|p|p] eqn:Hs; [change (2 ^ 0) with 1; lia | | lia].
    apply Z.shiftl_mul_pow2. lia. }
  rewrite Hm. unfold Z.div, Z.modulo.
  destruct (Z.div_eucl (n * 2 ^ (- e')) 100000000) as [q r]. reflexivity.
Qed.

Lemma div_core8_facts n :
  0 < n ->
  let e' := Z.min (fexp (Zdigits2 n - 27)) 0 in
  let q := (n * 2 ^ (- e')) / 100000000 in
  0 < q /\ e' <= fexp (Zdigits2 q + e') /\
  fexp (Zdigits2 q + e') - e' < Zdigits2 q /\
  (n < 2 ^ 80 -> Zdigits2 q + e' <= 1023).
Proof.
  intros Hn e' q.
  pose proof (Zdigits2_bounds n Hn) as [Nlo Nhi].
  pose proof (Zdigits2_pos n Hn) as Npos.
  destruct (Z_le_gt_dec (Zdigits2 n) 80) as [Hd | Hd].
  - assert (He : e' = Zdigits2 n - 80) by (unfold e'; rewrite fexp_eq; lia).
    assert (Hsh : Zdigits2 (n * 2 ^ (- e')) = 80).
    { rewrite Zdigits2_shift by lia. lia. }
    assert (Hpos : 0 < n * 2 ^ (- e')).
    { apply Z.mul_pos_pos; trivial. apply Z.pow_pos_nonneg; lia. }
    pose proof (Zdigits2_bounds _ Hpos) as [Slo Shi]. rewrite Hsh in Slo, Shi.
    change (2 ^ (80 - 1)) with 604462909807314587353088 in Slo.
    change (2 ^ 80) with 1208925819614629174706176 in Shi.
    assert (Hq1 : 4503599627370496 <= q).
    { unfold q. apply Z.div_le_lower_bound; lia. }
    assert (Hq2 : q < 18014398509481984).
    { unfold q. apply Z.div_lt_upper_bound; lia. }
    assert (53 <= Zdigits2 q).
    { change 53 with (52 + 1). apply Zdigits2_lower; [lia|].
      change (2 ^ 52) with 4503599627370496. lia. }
    assert (Zdigits2 q <= 54).
    { apply Zdigits2_upper; [lia|]. change (2 ^ 54) with 18014398509481984. lia. }
    rewrite !fexp_eq. lia.
  - assert (He : e' = 0) by (unfold e'; rewrite fexp_eq; lia).
    assert (Hq : q = n / 100000000).
    { unfold q. rewrite He. change (2 ^ (- 0)) with 1. now rewrite Z.mul_1_r. }
    assert (H26 : 2 ^ 26 <= 100000000 < 2 ^ 27) by (vm_compute; intuition discriminate).
    assert (Hqlo : 2 ^ (Zdigits2 n - 1 - 27) <= q).
    { rewrite Hq. apply Z.div_le_lower_bound; [lia|].
      apply Z.le_trans with (2 ^ 27 * 2 ^ (Zdigits2 n - 1 - 27)).
      - apply Z.mul_le_mono_nonneg_r; [apply Z.pow_nonneg|]; lia.
      - rewrite <- Z.pow_add_r by lia.
        replace (27 + (Zdigits2 n - 1 - 27)) with (Zdigits2 n - 1) by lia. trivial. }
    assert (Hp : 0 < 2 ^ (Zdigits2 n - 1 - 27)) by (apply Z.pow_pos_nonneg; lia).
    assert (Hqhi : q < 2 ^ (Zdigits2 n - 26)).
    { rewrite Hq. apply Z.div_lt_upper_bound; [lia|].
      apply Z.lt_le_trans with (2 ^ Zdigits2 n); trivial.
      replace (Zdigits2 n) with (26 + (Zdigits2 n - 26)) at 1 by lia.
      rewrite Z.pow_add_r by lia.
      apply Z.mul_le_mono_nonneg_r; [apply Z.pow_nonneg|]; lia. }
    assert (Zdigits2 n - 27 <= Zdigits2 q).
    { replace (Zdigits2 n - 27) with (Zdigits2 n - 1 - 27 + 1) by lia.
      apply Zdigits2_lower; lia. }
    assert (Zdigits2 q <= Zdigits2 n - 26) by (apply Zdigits2_upper; lia).
    rewrite !fexp_eq. repeat split; try lia.
    intros H80. exfalso.
    assert (2 ^ 80 <= 2 ^ (Zdigits2 n - 1)) by (apply Z.pow_le_mono_r; lia). lia.
Qed.

Lemma of_decimal8_ok s p :
  valid (of_decimal s (Zpos p) 8) = true /\
  has_sign s (of_decimal s (Zpos p) 8) = true /\
  is_zero (of_decimal s (Zpos p) 8) = false /\
  (Zpos p < 2 ^ 80 -> is_finite (of_decimal s (Zpos p) 8) = true).
Proof.
  unfold of_decimal. rewrite div_core8 by lia.
  destruct (div_core8_facts (Zpos p) ltac:(lia)) as (Hq & Hpre & Hnz & Hfin).
  pose proof (binary_round_aux_ok s _ _
    (new_location 100000000
       ((Zpos p * 2 ^ (- Z.min (fexp (Zdigits2 (Zpos p) - 27)) 0)) mod 100000000))
    Hq Hpre) as (Hv & Hs & Hz & Hf).
  repeat split; auto.
Qed.


Lemma round_half_even_bounds a b :
  0 <= a -> 0 < b -> a / b <= round_half_even a b <= a / b + 1.
Proof.
  intros Ha Hb. unfold round_half_even.
  destruct (2 * (a mod b) ?= b); [destruct (Z.even (a / b))| |]; lia.
Qed.

Lemma round_half_even_pos a b :
  0 <= a -> 0 < b -> b < 2 * a -> 0 < round_half_even a b.
Proof.
  intros Ha Hb Hab. unfold round_half_even.
  destruct (Z_lt_le_dec a b) as [Hlt | Hge].
  - rewrite Z.mod_small, Z.div_small by lia.
    destruct (Z.compare_spec (2 * a) b); cbn; lia.
  - assert (0 < a / b) by (apply Z.div_str_pos; lia).
    destruct (2 * (a mod b) ?= b); [destruct (Z.even (a / b))| |]; lia.
Qed.

Lemma round_half_even_zero a b :
  0 <= a -> 0 < b -> 2 * a <= b -> round_half_even a b = 0.
Proof.
  intros Ha Hb Hab. unfold round_half_even.
  rewrite Z.mod_small, Z.div_small by lia.
  destruct (Z.compare_spec (2 * a) b); cbn; lia.
Qed.

(** Rounding to 8 decimals leaves a binary64 integer unchanged. *)
Lemma round_value8_integer s m e :
  valid (S754_finite s m e) = true -> 0 <= e ->
  round_value (S754_finite s m e) 8 = S754_finite s m e.
Proof.
  intros Hv He. unfold round_value, to_scaled.
  destruct (Z.leb_spec 0 e) as [_ | Hn]; [|lia].
  change (10 ^ Z.of_nat 8) with 100000000.
  assert (P2 : 0 < 2 ^ e) by (apply Z.pow_pos_nonneg; lia).
  destruct (Zpos m * 2 ^ e * 100000000) as [|n|n] eqn:Hn; try nia.
  unfold of_decimal. rewrite div_core8 by lia. rewrite <- Hn.
  set (e' := Z.min (fexp (Zdigits2 (Zpos m * 2 ^ e * 100000000) - 27)) 0).
  assert (He' : e' <= 0) by (unfold e'; lia).
  replace (Zpos m * 2 ^ e * 100000000 * 2 ^ (- e'))
    with (Zpos m * 2 ^ (e - e') * 100000000).
  2:{ replace (e - e') with (e + - e') by lia. rewrite Z.pow_add_r by lia. ring. }
  rewrite Z.div_mul, Z.mod_mul by lia.
  change (new_location 100000000 0) with loc_Exact.
  replace e' with (e - (e - e')) at 2 by lia.
  apply binary_round_aux_exact; [exact Hv | lia].
Qed.

Lemma round_value8_ok x :
  valid x = true ->
  valid (round_value x 8) = true /\
  is_finite (round_value x 8) = is_finite x /\
  is_nan (round_value x 8) = is_nan x /\
  (forall s, has_sign s x = true -> has_sign s (round_value x 8) = true).
Proof.
  intros Hv. destruct x as [s | s | | s m e]; try (repeat split; trivial; fail).
  destruct (Z_le_gt_dec 0 e) as [He | He].
  - rewrite round_value8_integer by trivial. repeat split; trivial.
  - pose proof (valid_finite_inv _ _ _ Hv) as [Hc _].
    pose proof (digits2_bounds m) as [_ Mhi].
    assert (Hm : Zpos m < 2 ^ 53).
    { apply Z.lt_le_trans with (2 ^ Zpos (digits2_pos m)); trivial.
      apply Z.pow_le_mono_r; lia. }
    change (2 ^ 53) with 9007199254740992 in Hm.
    unfold round_value, to_scaled.
    destruct (Z.leb_spec 0 e) as [Hn | _]; [lia|].
    change (10 ^ Z.of_nat 8) with 100000000.
    assert (P2 : 2 <= 2 ^ (- e)).
    { change 2 with (2 ^ 1) at 1. apply Z.pow_le_mono_r; lia. }
    pose proof (round_half_even_bounds (Zpos m * 100000000) (2 ^ (- e))
                  ltac:(lia) ltac:(lia)) as [Rlo Rhi].
    assert (Hq0 : 0 <= Zpos m * 100000000 / 2 ^ (- e)) by (apply Z.div_pos; lia).
    assert (Hq : Zpos m * 100000000 / 2 ^ (- e) < 450359962737049600000000).
    { apply Z.div_lt_upper_bound; nia. }
    destruct (round_half_even (Zpos m * 100000000) (2 ^ (- e))) as [|n|n] eqn:Hr;
      try lia.
    + cbn. repeat split; trivial.
    + destruct (of_decimal8_ok s n) as (V & S & Z0' & F).
      assert (Fin : is_finite (of_decimal s (Zpos n) 8) = true).
      { apply F. change (2 ^ 80) with 1208925819614629174706176. lia. }
      repeat split; trivial.
      * destruct (of_decimal s (Zpos n) 8); trivial; discriminate.
      * intros s' H. cbn in H. apply Bool.eqb_prop in H. now subst s'.
Qed.

(** Rounding to 8 decimals gives zero exactly when the exact value is at most
    half a unit of the eighth decimal place. *)
Lemma round_value8_nonzero s m e :
  valid (S754_finite s m e) = true ->
  (e < 0 -> 2 ^ (- e) < 2 * (Zpos m * 100000000)) ->
  is_zero (round_value (S754_finite s m e) 8) = false.
Proof.
  intros Hv H. destruct (Z_le_gt_dec 0 e) as [He | He].
  - now rewrite round_value8_integer.
  - unfold round_value, to_scaled.
    destruct (Z.leb_spec 0 e) as [Hn | _]; [lia|].
    change (10 ^ Z.of_nat 8) with 100000000.
    assert (P2 : 0 < 2 ^ (- e)) by (apply Z.pow_pos_nonneg; lia).
    pose proof (round_half_even_pos (Zpos m * 100000000) (2 ^ (- e))
                  ltac:(lia) P2 (H ltac:(lia))) as Hr.
    destruct (round_half_even (Zpos m * 100000000) (2 ^ (- e))) as [|n|n]; try lia.
    apply of_decimal8_ok.
Qed.

Lemma round_value8_zero s m e :
  e < 0 -> 2 * (Zpos m * 100000000) <= 2 ^ (- e) ->
  round_value (S754_finite s m e) 8 = S754_zero s.
Proof.
  intros He H. unfold round_value, to_scaled.
  destruct (Z.leb_spec 0 e) as [Hn | _]; [lia|].
  change (10 ^ Z.of_nat 8) with 100000000.
  assert (P2 : 0 < 2 ^ (- e)) by (apply Z.pow_pos_nonneg; lia).
  rewrite round_half_even_zero by lia. reflexivity.
Qed.

(** ** Comparisons *)
Lemma compare_antisym x y :
  SFcompare y x = option_map CompOpp (SFcompare x y).
Proof.
  destruct x as [sx | sx | | sx mx ex], y as [sy | sy | | sy my ey];
    try reflexivity;
    try (destruct sx; reflexivity); try (destruct sy; reflexivity);
    try (destruct sx, sy; reflexivity).
  cbn [SFcompare option_map].
  assert (Hsw : Pos.compare_cont Eq my mx = CompOpp (Pos.compare_cont Eq mx my))
    by (now rewrite Pos.compare_cont_antisym).
  rewrite (Z.compare_antisym ey ex), Hsw.
  destruct sx, sy; try reflexivity;
    destruct (ey ?= ex); cbn; trivial;
    destruct (Pos.compare_cont Eq mx my); reflexivity.
Qed.

Lemma leb_of_not_ltb x y :
  is_nan x = false -> is_nan y = false -> ltb x y = false -> leb y x = true.
Proof.
  unfold ltb, leb, SFltb, SFleb. intros Hx Hy.
  rewrite (compare_antisym x y).
  destruct (SFcompare x y) as [[]|] eqn:Hc; cbn; try congruence.
  destruct x, y; try discriminate; cbn in Hc; try discriminate;
    repeat match goal with
           | H : context [if ?b then _ else _] |- _ => destruct b
           | s : bool |- _ => destruct s
           end; discriminate.
Qed.

Lemma leb_finite_inv mt et x :
  leb (S754_finite false mt et) x = true ->
  x = S754_infinity false \/
  exists m e, x = S754_finite false m e /\
              (et < e \/ (et = e /\ Zpos mt <= Zpos m)).
Proof.
  unfold leb, SFleb.
  destruct x as [s | [] | | [] m e]; cbn; try discriminate; auto.
  intros H. right. exists m, e. split; trivial.
  destruct (Z.compare_spec et e) as [-> | Hlt | Hgt]; try discriminate; auto.
  right. split; trivial.
  change (Pos.compare_cont Eq mt m) with (mt ?= m)%positive in H.
  destruct (Pos.compare_spec mt m); try discriminate; lia.
Qed.

Lemma ltb_zero_of_sign x :
  has_sign false x = true -> is_zero x = false ->
  ltb (S754_zero false) x = true.
Proof. destruct x as [s | [] | | [] m e]; cbn; congruence. Qed.


(** ** The scripted source obeys the laws of the random module *)

Lemma compare_refl x : is_nan x = false -> SFcompare x x = Some Eq.
Proof.
  destruct x as [s | [] | | [] m e]; cbn; try discriminate; trivial.
  - intros _. rewrite Z.compare_refl.
    change (Pos.compare_cont Eq m m) with (m ?= m)%positive.
    now rewrite Pos.compare_refl.
  - intros _. rewrite Z.compare_refl.
    change (Pos.compare_cont Eq m m) with (m ?= m)%positive.
    now rewrite Pos.compare_refl.
Qed.

Lemma leb_refl x : is_nan x = false -> leb x x = true.
Proof. intros H. unfold leb, SFleb. now rewrite compare_refl. Qed.

Lemma leb_not_nan x y : leb x y = true -> is_nan x = false /\ is_nan y = false.
Proof. destruct x, y; cbn; try discriminate; auto. Qed.

Lemma script_laws : RandomLaws tape.
Proof.
  split.
  - intros [| [x | k] g]; cbn; auto.
    destruct (valid x && is_finite x) eqn:E; cbn; auto.
    now apply andb_prop in E.
  - intros [| [x | k] g]; cbn; auto.
    destruct (valid x && is_finite x && ltb zero x && leb lognorm_low x) eqn:E;
      cbn; auto.
    apply andb_prop in E as [E1 _].
    apply andb_prop in E1 as [E1 E2]. apply andb_prop in E1 as [E0 E1]. auto.
  - intros n [| [x | k] g] Hn; cbn; try lia.
    apply Z.mod_pos_bound; trivial.
  - intros a b g Ha Hb Hab.
    destruct (leb_not_nan _ _ Hab) as [Na _].
    assert (Haa : leb a a = true) by now apply leb_refl.
    destruct g as [| [x | k] g]; cbn; auto.
    destruct (valid x && leb a x && leb x b) eqn:E; cbn; auto.
    apply andb_prop in E as [E1 E2]. apply andb_prop in E1 as [E0 E1]. auto.
Qed.

Lemma script_tail : SamplerTail tape.
Proof.
  split. intros [| [x | k] g]; cbn; auto.
  destruct (valid x && is_finite x && ltb zero x && leb lognorm_low x) eqn:E;
    cbn; auto.
  now apply andb_prop in E.
Qed.

(** ** Rounding to 8 decimals against the thresholds of the producer *)

Lemma valid_mantissa_bounds s m e :
  valid (S754_finite s m e) = true ->
  Zpos m < 9007199254740992 /\ -1074 <= e <= 971 /\
  (-1074 < e -> 4503599627370496 <= Zpos m).
Proof.
  intros Hv. apply valid_finite_inv in Hv as [Hc He].
  pose proof (digits2_bounds m) as [Mlo Mhi].
  assert (Hd : Zpos (digits2_pos m) <= 53) by lia.
  repeat split; try lia.
  - change 9007199254740992 with (2 ^ 53).
    apply Z.lt_le_trans with (2 ^ Zpos (digits2_pos m)); trivial.
    apply Z.pow_le_mono_r; lia.
  - intros Hn. assert (Zpos (digits2_pos m) = 53) by lia.
    replace (Zpos (digits2_pos m) - 1) with 52 in Mlo by lia.
    exact Mlo.
Qed.

Lemma round_value8_positive m e :
  valid (S754_finite false m e) = true ->
  -80 <= e -> (e = -80 -> 6044629098073146 <= Zpos m) ->
  ltb zero (round_value (S754_finite false m e) 8) = true.
Proof.
  intros Hv He Hm.
  pose proof (valid_mantissa_bounds _ _ _ Hv) as (_ & _ & Hn).
  apply ltb_zero_of_sign.
  - now apply (round_value8_ok _ Hv).
  - apply round_value8_nonzero; trivial. intros Hneg.
    destruct (Z.eq_dec e (-80)) as [-> | Hne].
    + change (2 ^ (- -80)) with 1208925819614629174706176. lia.
    + assert (2 ^ (- e) <= 2 ^ 79) by (apply Z.pow_le_mono_r; lia).
      change (2 ^ 79) with 604462909807314587353088 in *. lia.
Qed.

Lemma round_value8_vanishes s m e :
  valid (S754_finite s m e) = true ->
  e < -80 \/ (e = -80 /\ Zpos m < 6044629098073146) ->
  round_value (S754_finite s m e) 8 = S754_zero s.
Proof.
  intros Hv He.
  pose proof (valid_mantissa_bounds _ _ _ Hv) as (Hm & _ & _).
  apply round_value8_zero; [lia|].
  destruct He as [He | [-> Hlt]].
  - assert (2 ^ 81 <= 2 ^ (- e)) by (apply Z.pow_le_mono_r; lia).
    change (2 ^ 81) with 2417851639229258349412352 in *. lia.
  - change (2 ^ (- -80)) with 1208925819614629174706176. lia.
Qed.

(** The record field is positive exactly when the float is at least [5e-09]. *)
Lemma round_value8_positive_iff x :
  valid x = true ->
  ltb zero (round_value x 8) = leb half_unit8 x.
Proof.
  intros Hv. destruct x as [s | [] | | [] m e];
    [reflexivity | reflexivity | reflexivity | reflexivity | | ].
  - (* a negative number rounds to a negative number or to -0.0 *)
    pose proof (round_value8_ok _ Hv) as (_ & _ & _ & Hs).
    specialize (Hs true eq_refl).
    destruct (round_value (S754_finite true m e) 8) as [[] | [] | | [] ? ?];
      try discriminate; reflexivity.
  - unfold leb, SFleb, half_unit8. cbn [SFcompare].
    destruct (Z.compare_spec (-80) e) as [<- | Hlt | Hgt].
    + change (Pos.compare_cont Eq 6044629098073146 m)
        with (Zpos 6044629098073146 ?= Zpos m).
      destruct (Z.compare_spec (Zpos 6044629098073146) (Zpos m)) as [H1 | H1 | H1].
      * rewrite round_value8_positive; [reflexivity | exact Hv | lia | lia].
      * rewrite round_value8_positive; [reflexivity | exact Hv | lia | lia].
      * rewrite round_value8_vanishes; [reflexivity | exact Hv | lia].
    + rewrite round_value8_positive; [reflexivity | exact Hv | lia | lia].
    + rewrite round_value8_vanishes; [reflexivity | exact Hv | lia].
Qed.

Lemma py_round8_ok x : valid x = true -> py_round x 8 = Ok (round_value x 8).
Proof.
  intros Hv. unfold py_round.
  destruct (round_value8_ok _ Hv) as (_ & -> & _).
  now destruct (is_finite x).
Qed.

Lemma py_max_valid a b : valid a = true -> valid b = true -> valid (py_max a b) = true.
Proof. intros Ha Hb. unfold py_max. now destruct (ltb a b). Qed.

(** The clamp: unless its first argument is NaN, [max(x, 0.0001)] is at least
    the floor. *)
Lemma py_max_floor x :
  is_nan x = false -> leb price_floor (py_max x price_floor) = true.
Proof.
  intros Hx. unfold py_max. destruct (ltb x price_floor) eqn:E.
  - reflexivity.
  - now apply leb_of_not_ltb.
Qed.

Lemma py_max_nan b : py_max S754_nan b = S754_nan.
Proof. reflexivity. Qed.

Lemma round_value8_above_floor x :
  valid x = true -> leb price_floor x = true ->
  ltb zero (round_value x 8) = true.
Proof.
  intros Hv Hle. rewrite round_value8_positive_iff by trivial.
  unfold price_floor in Hle. apply leb_finite_inv in Hle as [-> | (m & e & -> & He)].
  - reflexivity.
  - unfold leb, SFleb, half_unit8. cbn [SFcompare].
    destruct (Z.compare_spec (-80) e); trivial; lia.
Qed.

(** ** One call of [next_trade] *)

Section NextTrade.
Context {G : Type} `{RandomSource G} (laws : RandomLaws G).

Lemma gauss_valid sigma g :
  valid sigma = true -> valid (fst (gauss zero sigma g)) = true.
Proof.
  intros Hs. unfold gauss.
  pose proof (normal_deviate_finite G laws g) as [Hz _].
  destruct (normal_deviate g) as [z g']. cbn [fst] in *.
  apply add_valid; [reflexivity|]. now apply mul_valid.
Qed.

Lemma walked_price_valid s g :
  wf_simulator s -> valid (walked_price s g) = true.
Proof.
  intros [Hp Hv]. unfold walked_price.
  apply mul_valid; trivial. apply add_valid; [reflexivity|].
  now apply gauss_valid.
Qed.

Lemma clamped_price_valid s g :
  wf_simulator s -> valid (clamped_price s g) = true.
Proof.
  intros Hs. apply py_max_valid; [now apply walked_price_valid | reflexivity].
Qed.

Lemma scaled_volume_valid s g : valid (scaled_volume s g) = true.
Proof.
  unfold scaled_volume. apply mul_valid; [|reflexivity].
  apply (lognormvariate_positive G laws).
Qed.

Lemma choice_side g :
  exists side g',
    choice ["buy"%string; "sell"%string] g = Ok (side, g') /\
    (side = "buy"%string \/ side = "sell"%string).
Proof.
  unfold choice. cbn [List.length].
  pose proof (randbelow_range G laws (Z.of_nat 2) g ltac:(cbn; lia)) as Hr.
  destruct (randbelow (Z.of_nat 2) g) as [i g']. cbn [fst] in Hr.
  change (Z.of_nat 2) with 2 in Hr.
  assert (Hi : i = 0 \/ i = 1) by lia.
  destruct Hi as [-> | ->].
  - exists "buy"%string, g'. split; [reflexivity | now left].
  - exists "sell"%string, g'. split; [reflexivity | now right].
Qed.

(** Under the laws of the random module a call never raises: it returns the
    record built from the clamped price and the scaled volume, and stores the
    clamped price and the incremented counter. *)
Lemma next_trade_ok s g now :
  wf_simulator s ->
  exists side g',
    next_trade s g now =
      Ok (Trade.mk now (symbol s) (round_value (clamped_price s g) 8)
            (round_value (scaled_volume s g) 8) (trade_id s + 1) side,
          {| symbol := symbol s; price := clamped_price s g;
             volatility := volatility s; trade_id := trade_id s + 1 |},
          g') /\
    (side = "buy"%string \/ side = "sell"%string).
Proof.
  intros Hs.
  pose proof (clamped_price_valid s g Hs) as Hc.
  pose proof (scaled_volume_valid s g) as Hv.
  unfold next_trade.
  unfold clamped_price, walked_price, scaled_volume in *.
  destruct (gauss zero (volatility s) g) as [change g1]. cbn [fst snd] in *.
  destruct (lognormvariate zero one g1) as [draw g2]. cbn [fst snd] in *.
  destruct (choice_side g2) as (side & g3 & Ec & Hside).
  rewrite Ec. cbn [bind].
  rewrite (py_round8_ok _ Hc), (py_round8_ok _ Hv). cbn [bind].
  exists side, g3. split; [reflexivity | exact Hside].
Qed.

Lemma next_trade_wf s g now trade s' g' :
  wf_simulator s -> next_trade s g now = Ok (trade, s', g') -> wf_simulator s'.
Proof.
  intros Hs E. destruct (next_trade_ok s g now Hs) as (side & g3 & E' & _).
  rewrite E' in E. injection E as <- <- <-.
  split; cbn; [now apply clamped_price_valid | apply Hs].
Qed.

End NextTrade.

(** ** Finiteness and sign of the scaled volume *)

Lemma mul_finite_pre mx ex my ey :
  valid (S754_finite false mx ex) = true ->
  valid (S754_finite false my ey) = true ->
  ex + ey <= fexp (Zdigits2 (Zpos (mx * my)) + (ex + ey)) /\
  Zdigits2 (Zpos (mx * my))
    <= Zpos (digits2_pos mx) + Zpos (digits2_pos my).
Proof.
  intros Hx Hy.
  apply valid_finite_inv in Hx as [Hx1 Hx2], Hy as [Hy1 Hy2].
  pose proof (digits2_bounds mx) as [Xlo Xhi].
  pose proof (digits2_bounds my) as [Ylo Yhi].
  assert (Hlo : Zpos (digits2_pos mx) + Zpos (digits2_pos my) - 1
                <= Zdigits2 (Zpos (mx * my))).
  { replace (Zpos (digits2_pos mx) + Zpos (digits2_pos my) - 1)
      with ((Zpos (digits2_pos mx) - 1) + (Zpos (digits2_pos my) - 1) + 1) by lia.
    apply Zdigits2_lower; [lia|].
    rewrite Z.pow_add_r by lia. rewrite Pos2Z.inj_mul.
    apply Z.mul_le_mono_nonneg; trivial; apply Z.pow_nonneg; lia. }
  split.
  - rewrite fexp_eq. lia.
  - apply Zdigits2_upper; [lia|].
    rewrite Z.pow_add_r by lia. rewrite Pos2Z.inj_mul.
    apply Z.mul_lt_mono_nonneg; lia.
Qed.

Lemma mul_volume_scale x :
  valid x = true -> is_finite x = true -> has_sign false x = true ->
  is_finite (mul x volume_scale) = true /\
  has_sign false (mul x volume_scale) = true.
Proof.
  intros Hv Hf Hs.
  destruct x as [[] | s | | [] m e]; try discriminate; [split; reflexivity|].
  unfold mul, volume_scale. cbn [SFmul xorb].
  assert (Hw : valid (S754_finite false 7205759403792794 (-56)) = true)
    by reflexivity.
  destruct (mul_finite_pre m e _ _ Hv Hw) as [Hpre Hd].
  change (Zpos (digits2_pos 7205759403792794)) with 53 in Hd.
  pose proof (valid_finite_inv _ _ _ Hv) as [Hc He].
  destruct (binary_round_aux_ok false (Zpos (m * 7205759403792794)) (e + -56)
              loc_Exact ltac:(lia) Hpre) as (_ & Hsign & _ & Hfin).
  split; [apply Hfin; lia | exact Hsign].
Qed.

(** A draw of at least [5e-06] scaled by [0.1] is at least [5e-09]: the
    exponent of the product is at most four below the one of the draw. *)
Lemma mul_volume_scale_low x :
  valid x = true -> is_finite x = true -> leb lognorm_low x = true ->
  leb half_unit8 (mul x volume_scale) = true.
Proof.
  intros Hv Hf Hlow.
  unfold lognorm_low in Hlow.
  apply leb_finite_inv in Hlow as [-> | (m & e & -> & He)]; [discriminate|].
  assert (He70 : -70 <= e) by lia. clear He.
  pose proof (valid_mantissa_bounds _ _ _ Hv) as (Mhi & _ & Mlo).
  specialize (Mlo ltac:(lia)).
  unfold mul, volume_scale. cbn [SFmul xorb].
  assert (Hw : valid (S754_finite false 7205759403792794 (-56)) = true)
    by reflexivity.
  destruct (mul_finite_pre m e _ _ Hv Hw) as [Hpre Hd].
  change (Zpos (digits2_pos 7205759403792794)) with 53 in Hd.
  pose proof (digits2_bounds m) as [_ Dhi].
  assert (Hdm : Zpos (digits2_pos m) <= 53).
  { apply valid_finite_inv in Hv as [Hc _]. lia. }
  set (M := Zpos (m * 7205759403792794)) in *.
  assert (HM : 0 < M) by (unfold M; lia).
  assert (Hlo : 105 <= Zdigits2 M).
  { apply (Zdigits2_lower M 104); [lia|]. unfold M. rewrite Pos2Z.inj_mul.
    change (2 ^ 104) with (4503599627370496 * 4503599627370496). nia. }
  assert (Hup : Zdigits2 M <= 106) by lia.
  destruct (binary_round_aux_cases false M (e + -56) loc_Exact HM Hpre)
    as (m1 & Hb & Hcases).
  rewrite fexp_eq in Hb, Hcases.
  replace (Z.max (Zdigits2 M + (e + -56) - 53) (-1074))
    with (Zdigits2 M + e - 109) in Hb, Hcases by lia.
  replace (Zdigits2 M + e - 109 - (e + -56)) with (Zdigits2 M - 53) in Hb by lia.
  pose proof (Zdigits2_bounds M HM) as [Blo _].
  assert (Hq : 0 < M / 2 ^ (Zdigits2 M - 53)).
  { apply Z.div_str_pos. split; [apply Z.pow_pos_nonneg; lia|].
    apply Z.le_trans with (2 ^ (Zdigits2 M - 1)); trivial.
    apply Z.pow_le_mono_r; lia. }
  pose proof (Zdigits2_div M (Zdigits2 M - 53) HM ltac:(lia) Hq) as Hdq.
  assert (Hd1 : 53 <= Zdigits2 m1).
  { replace 53 with (Zdigits2 M - (Zdigits2 M - 53)) by lia. rewrite <- Hdq.
    apply Zdigits2_mono; lia. }
  destruct Hcases as [(Hz & _) | (Hm1 & _ & p & _ & ->)]; [lia|].
  rewrite fexp_eq.
  destruct (Z.max (Zdigits2 m1 + (Zdigits2 M + e - 109) - 53) (-1074)
            <=? emax - prec); [|reflexivity].
  unfold leb, SFleb, half_unit8. cbn [SFcompare].
  destruct (Z.compare_spec (-80)
              (Z.max (Zdigits2 m1 + (Zdigits2 M + e - 109) - 53) (-1074)));
    try reflexivity; lia.
Qed.

Lemma positive_has_sign x : ltb zero x = true -> has_sign false x = true.
Proof. destruct x as [s | [] | | [] m e]; cbn; congruence. Qed.

Lemma leb_zero_of_sign x : has_sign false x = true -> leb zero x = true.
Proof. destruct x as [[] | [] | | [] m e]; cbn; congruence. Qed.

Lemma to_scaled_nonneg m e k : 0 <= to_scaled m e k.
Proof.
  unfold to_scaled.
  assert (0 < 10 ^ Z.of_nat k) by (apply Z.pow_pos_nonneg; lia).
  destruct (Z.leb_spec 0 e).
  - assert (0 < 2 ^ e) by (apply Z.pow_pos_nonneg; lia). nia.
  - assert (0 < 2 ^ (- e)) by (apply Z.pow_pos_nonneg; lia).
    pose proof (round_half_even_bounds (Zpos m * 10 ^ Z.of_nat k) (2 ^ (- e))
                  ltac:(nia) ltac:(lia)) as [Hlo _].
    assert (0 <= Zpos m * 10 ^ Z.of_nat k / 2 ^ (- e)) by (apply Z.div_pos; nia).
    lia.
Qed.

Lemma round_value_has_8_decimals x :
  is_finite x = true -> has_8_decimals (round_value x 8).
Proof.
  destruct x as [s | s | | s m e]; try discriminate; intros _.
  - exists s, 0. split; [lia | reflexivity].
  - exists s, (to_scaled m e 8). split; [apply to_scaled_nonneg | reflexivity].
Qed.

(** ** Claims about one call of [next_trade] *)

Section TradeClaims.
Context {G : Type} `{RandomSource G} (laws : RandomLaws G).

Lemma scaled_volume_sign s g :
  is_finite (scaled_volume s g) = true /\
  has_sign false (scaled_volume s g) = true.
Proof.
  unfold scaled_volume.
  destruct (lognormvariate_positive G laws (snd (gauss zero (volatility s) g)))
    as (Hv & Hf & Hp).
  apply mul_volume_scale; trivial. now apply positive_has_sign.
Qed.

(** C1 (as amended): whenever the walked price [price * (1 + change)] is not
    NaN, a call of [next_trade] returns, the price it stores is at least the
    floor [0.0001] (it may equal it), and the price field of the returned
    record is strictly positive. *)
Theorem next_trade_price_at_least_floor s g now :
  wf_simulator s ->
  is_nan (walked_price s g) = false ->
  exists trade s' g',
    next_trade s g now = Ok (trade, s', g') /\
    leb price_floor (price s') = true /\
    ltb zero (Trade.price trade) = true.
Proof.
  intros Hs Hn.
  destruct (next_trade_ok laws s g now Hs) as (side & g' & E & _).
  eexists _, _, _. split; [exact E|]. cbn [price Trade.price].
  assert (Hfl : leb price_floor (clamped_price s g) = true)
    by now apply py_max_floor.
  split; trivial.
  apply round_value8_above_floor; trivial.
  now apply clamped_price_valid.
Qed.

(** C3: a call of [next_trade] returns a record whose volume field, the
    log-normal draw scaled by [0.1] and rounded to 8 decimals, is strictly
    positive: the draw is at least [5e-06], so the scaled draw is well above
    [5e-09], the least float that is not rounded to zero. *)
Theorem next_trade_volume_positive s g now :
  SamplerTail G ->
  wf_simulator s ->
  exists trade s' g',
    next_trade s g now = Ok (trade, s', g') /\
    Trade.volume trade = round_value (scaled_volume s g) 8 /\
    leb half_unit8 (scaled_volume s g) = true /\
    ltb zero (Trade.volume trade) = true.
Proof.
  intros tail Hs.
  destruct (next_trade_ok laws s g now Hs) as (side & g' & E & _).
  eexists _, _, _. split; [exact E|]. cbn [Trade.volume].
  pose proof (scaled_volume_valid laws s g) as Hv.
  assert (Hlow : leb half_unit8 (scaled_volume s g) = true).
  { unfold scaled_volume.
    destruct (lognormvariate_positive G laws (snd (gauss zero (volatility s) g)))
      as (Hdv & Hdf & _).
    apply mul_volume_scale_low; trivial.
    apply (lognormvariate_low G tail). }
  split; [reflexivity|]. split; [exact Hlow|].
  rewrite round_value8_positive_iff; trivial.
Qed.

(** C6: a call of [next_trade] returns a record whose volume is the float of
    a decimal numeral with eight fractional digits, and so is its price
    whenever the price is finite (an infinite or NaN price has no digits at
    all). *)
Theorem next_trade_eight_decimals s g now :
  wf_simulator s ->
  exists trade s' g',
    next_trade s g now = Ok (trade, s', g') /\
    Trade.price trade = round_value (price s') 8 /\
    (is_finite (Trade.price trade) = true ->
       has_8_decimals (Trade.price trade)) /\
    has_8_decimals (Trade.volume trade).
Proof.
  intros Hs.
  destruct (next_trade_ok laws s g now Hs) as (side & g' & E & _).
  eexists _, _, _. split; [exact E|]. cbn [price Trade.price Trade.volume].
  split; [reflexivity|]. split.
  - intros Hf. apply round_value_has_8_decimals.
    destruct (round_value8_ok _ (clamped_price_valid laws s g Hs))
      as (_ & <- & _). exact Hf.
  - apply round_value_has_8_decimals. apply scaled_volume_sign.
Qed.

(** C10 (as amended): for every float initial price and volatility (zero,
    negative and infinite ones included) the first call of [next_trade]
    returns without raising, and the price it stores is at least [0.0001]
    exactly when the walked price [price * (1 + change)] is not NaN; a NaN
    walked price is stored as NaN. *)
Theorem next_trade_total sym p0 vol g now :
  valid p0 = true -> valid vol = true ->
  exists trade s' g',
    next_trade (fst (PriceSimulator_init sym p0 vol g))
               (snd (PriceSimulator_init sym p0 vol g)) now
      = Ok (trade, s', g') /\
    leb price_floor (price s')
      = negb (is_nan (walked_price (fst (PriceSimulator_init sym p0 vol g))
                                   (snd (PriceSimulator_init sym p0 vol g)))) /\
    is_nan (price s')
      = is_nan (walked_price (fst (PriceSimulator_init sym p0 vol g))
                             (snd (PriceSimulator_init sym p0 vol g))).
Proof.
  intros Hp Hv.
  set (s := fst (PriceSimulator_init sym p0 vol g)).
  set (g0 := snd (PriceSimulator_init sym p0 vol g)).
  assert (Hs : wf_simulator s).
  { unfold s, PriceSimulator_init. destruct (randint 1000000 9999999 g).
    split; assumption. }
  destruct (next_trade_ok laws s g0 now Hs) as (side & g' & E & _).
  eexists _, _, _. split; [exact E|]. cbn [price].
  destruct (is_nan (walked_price s g0)) eqn:En.
  - unfold clamped_price. destruct (walked_price s g0); try discriminate.
    split; reflexivity.
  - pose proof (py_max_floor _ En) as Hfl. split; [exact Hfl|].
    apply leb_not_nan in Hfl. apply Hfl.
Qed.

End TradeClaims.

(** ** Successive calls on one simulator *)

Section Runs.
Context {G : Type} `{RandomSource G} (laws : RandomLaws G).

Lemma randint_range a b g : a <= b -> a <= fst (randint a b g) <= b.
Proof.
  intros Hab. unfold randint.
  pose proof (randbelow_range G laws (b - a + 1) g ltac:(lia)) as Hr.
  destruct (randbelow (b - a + 1) g) as [k g']. cbn [fst] in *. lia.
Qed.

Lemma init_wf sym p0 vol g :
  valid p0 = true -> valid vol = true ->
  wf_simulator (fst (PriceSimulator_init sym p0 vol g)).
Proof.
  intros Hp Hv. unfold PriceSimulator_init.
  destruct (randint 1000000 9999999 g). split; assumption.
Qed.

Lemma init_fields sym p0 vol g :
  symbol (fst (PriceSimulator_init sym p0 vol g)) = sym /\
  price (fst (PriceSimulator_init sym p0 vol g)) = p0 /\
  volatility (fst (PriceSimulator_init sym p0 vol g)) = vol /\
  trade_id (fst (PriceSimulator_init sym p0 vol g))
    = fst (randint 1000000 9999999 g).
Proof.
  unfold PriceSimulator_init. destruct (randint 1000000 9999999 g).
  repeat split.
Qed.

Lemma run_trades_ok n : forall s g clock,
  wf_simulator s ->
  exists trades s' g',
    run_trades n s g clock = Ok (trades, s', g') /\
    List.length trades = n /\
    map Trade.trade_id trades
      = map (fun i => trade_id s + Z.of_nat i) (seq 1 n) /\
    trade_id s' = trade_id s + Z.of_nat n /\
    wf_simulator s'.
Proof.
  induction n as [|n IH]; intros s g clock Hs.
  - exists [], s, g. cbn [run_trades List.length map seq].
    split; [reflexivity|]. split; [reflexivity|]. split; [reflexivity|].
    split; [cbn; lia | exact Hs].
  - destruct (next_trade_ok laws s g (clock O) Hs) as (side & g1 & E & _).
    pose proof (next_trade_wf laws _ _ _ _ _ _ Hs E) as Hs1.
    cbn [run_trades]. rewrite E. cbn [bind].
    match type of E with _ = Ok (?t, ?s1, _) =>
      destruct (IH s1 g1 (fun i => clock (S i)) Hs1)
        as (trades & s2 & g2 & E2 & Hlen & Hids & Hid & Hs2)
    end.
    rewrite E2. cbn [bind].
    eexists _, _, _. split; [reflexivity|].
    cbn [trade_id] in Hids, Hid.
    split; [|split; [|split; [|exact Hs2]]].
    + cbn [List.length]. now rewrite Hlen.
    + cbn [map seq Trade.trade_id]. f_equal.
      rewrite Hids, <- (seq_shift n 1), map_map.
      apply map_ext. intros i. lia.
    + lia.
Qed.

(** C2: the counter of a new simulator is the draw of
    [randint(1000000, 9999999)], that is [1000000] plus the value of
    [_randbelow(9000000)], the only draw that the constructor makes, so it
    starts in [1000000, 9999999]; every call of [next_trade] adds exactly 1 to
    it and stamps the record with the new value; hence [n] successive calls
    emit the ids [start + 1, ..., start + n]. *)
Theorem trade_ids_count_up sym p0 vol g s gs now n clock :
  valid p0 = true -> valid vol = true -> wf_simulator s ->
  (trade_id (fst (PriceSimulator_init sym p0 vol g))
     = 1000000 + fst (randbelow 9000000 g) /\
   snd (PriceSimulator_init sym p0 vol g) = snd (randbelow 9000000 g) /\
   1000000 <= trade_id (fst (PriceSimulator_init sym p0 vol g)) <= 9999999) /\
  (exists trade s' g',
     next_trade s gs now = Ok (trade, s', g') /\
     trade_id s' = trade_id s + 1 /\
     Trade.trade_id trade = trade_id s') /\
  (exists trades s' g',
     run_trades n (fst (PriceSimulator_init sym p0 vol g))
                  (snd (PriceSimulator_init sym p0 vol g)) clock
       = Ok (trades, s', g') /\
     map Trade.trade_id trades
       = map (fun i => trade_id (fst (PriceSimulator_init sym p0 vol g))
                       + Z.of_nat i) (seq 1 n)).
Proof.
  intros Hp Hv Hs. split; [|split].
  - pose proof (randbelow_range G laws 9000000 g ltac:(lia)) as Hr.
    unfold PriceSimulator_init, randint.
    change (9999999 - 1000000 + 1) with 9000000.
    destruct (randbelow 9000000 g) as [k g1]. cbn [fst snd trade_id] in *.
    split; [reflexivity|]. split; [reflexivity | lia].
  - destruct (next_trade_ok laws s gs now Hs) as (side & g' & E & _).
    eexists _, _, _. split; [exact E|]. split; reflexivity.
  - destruct (run_trades_ok n _ (snd (PriceSimulator_init sym p0 vol g)) clock
                (init_wf sym p0 vol g Hp Hv))
      as (trades & s' & g' & E & _ & Hids & _).
    exists trades, s', g'. split; trivial.
Qed.

(** The clock reaches the record only through its time stamp. *)
Lemma next_trade_clock s g c1 c2 :
  match next_trade s g c1, next_trade s g c2 with
  | Ok (t1, s1, g1), Ok (t2, s2, g2) => quote t1 = quote t2 /\ s1 = s2 /\ g1 = g2
  | Raise e1, Raise e2 => e1 = e2
  | _, _ => False
  end.
Proof.
  unfold next_trade.
  destruct (gauss zero (volatility s) g) as [change g1].
  destruct (lognormvariate zero one g1) as [draw g2].
  destruct (choice ["buy"%string; "sell"%string] g2) as [[side g3] | e];
    cbn [bind]; trivial.
  destruct (py_round (py_max (mul (price s) (add one change)) price_floor) 8);
    cbn [bind]; trivial.
  destruct (py_round (mul draw volume_scale) 8); cbn [bind]; trivial.
  repeat split.
Qed.

Lemma run_trades_clock n : forall s g c1 c2,
  quotes (run_trades n s g c1) = quotes (run_trades n s g c2).
Proof.
  induction n as [|n IH]; intros s g c1 c2; [reflexivity|].
  cbn [run_trades].
  pose proof (next_trade_clock s g (c1 O) (c2 O)) as Hc.
  destruct (next_trade s g (c1 O)) as [[[t1 s1] g1] | e1],
           (next_trade s g (c2 O)) as [[[t2 s2] g2] | e2];
    try contradiction; cbn [bind].
  - destruct Hc as (Hq & <- & <-).
    specialize (IH s1 g1 (fun i => c1 (S i)) (fun i => c2 (S i))).
    destruct (run_trades n s1 g1 (fun i => c1 (S i))) as [[[l1 s3] g3] | e3],
             (run_trades n s1 g1 (fun i => c2 (S i))) as [[[l2 s4] g4] | e4];
      cbn [bind quotes] in *; try discriminate; trivial.
    injection IH as IH. cbn [map]. now rewrite Hq, IH.
  - now subst.
Qed.

(** C5: two runs from the same state of the random source, with the same
    symbol, initial price and volatility, produce the same sequence of
    (price, volume, side) tuples, whatever the clock shows in either run. *)
Theorem quotes_deterministic sym p0 vol g clock1 clock2 n :
  quotes (run_trades n (fst (PriceSimulator_init sym p0 vol g))
                       (snd (PriceSimulator_init sym p0 vol g)) clock1)
  = quotes (run_trades n (fst (PriceSimulator_init sym p0 vol g))
                         (snd (PriceSimulator_init sym p0 vol g)) clock2).
Proof. apply run_trades_clock. Qed.

End Runs.

(** ** Dictionaries *)

Lemma dict_get_set_same {V} (d : dict V) k v :
  dict_get (dict_set d k v) k = Some v.
Proof.
  induction d as [| [k' v'] d IH]; cbn.
  - now rewrite String.eqb_refl.
  - destruct (String.eqb k' k) eqn:E; cbn; rewrite E; trivial.
Qed.

Lemma dict_get_set_other {V} (d : dict V) k k' v :
  k' <> k -> dict_get (dict_set d k v) k' = dict_get d k'.
Proof.
  intros Hne. induction d as [| [k0 v0] d IH]; cbn.
  - destruct (String.eqb_spec k k'); [congruence | reflexivity].
  - destruct (String.eqb_spec k0 k) as [-> | Hk]; cbn.
    + destruct (String.eqb_spec k k'); [congruence | reflexivity].
    + destruct (String.eqb k0 k'); trivial.
Qed.

Lemma dict_keys_get {V} (d : dict V) k :
  In k (dict_keys d) <-> dict_get d k <> None.
Proof.
  induction d as [| [k0 v0] d IH]; cbn.
  - split; [contradiction | congruence].
  - destruct (String.eqb_spec k0 k) as [-> | Hk].
    + split; [discriminate | auto].
    + rewrite <- IH. split; [intros [?|?]; [contradiction | trivial] | auto].
Qed.

Lemma dict_keys_set_present {V} (d : dict V) k v :
  dict_get d k <> None -> dict_keys (dict_set d k v) = dict_keys d.
Proof.
  unfold dict_keys.
  induction d as [| [k0 v0] d IH]; cbn [dict_get dict_set]; [congruence|].
  destruct (String.eqb k0 k); cbn [map fst]; trivial.
  intros Hn. now rewrite IH.
Qed.

Lemma split_nonempty sep s : split sep s <> [].
Proof.
  destruct s as [| c rest]; cbn; [discriminate|].
  destruct (Ascii.eqb c sep); [discriminate|].
  destruct (split sep rest); discriminate.
Qed.

(** ** [create_simulators] *)

Lemma initial_prices_valid k p :
  dict_get initial_prices k = Some p -> valid p = true.
Proof.
  unfold initial_prices. cbn [dict_get].
  repeat match goal with
         | |- context [String.eqb ?a k] => destruct (String.eqb a k)
         end;
    intros E; try discriminate; injection E as <-; reflexivity.
Qed.

Section Create.
Context {G : Type} `{RandomSource G} (laws : RandomLaws G).

Lemma create_loop_inv syms : forall acc g,
  (forall k v, dict_get acc k = Some v -> created_ok k v) ->
  forall k v, dict_get (fst (create_loop syms acc g)) k = Some v ->
              created_ok k v.
Proof.
  induction syms as [| sym rest IH]; intros acc g Hacc; cbn [create_loop].
  - exact Hacc.
  - pose proof (uniform_range G laws ten thousand g eq_refl eq_refl eq_refl)
      as (Uv & Ulo & Uhi).
    destruct (uniform ten thousand g) as [fallback g1] eqn:Eu.
    cbn [fst] in Uv, Ulo, Uhi.
    pose proof (init_fields sym
                  match dict_get initial_prices sym with
                  | Some p => p
                  | None => fallback
                  end default_volatility g1) as (Fs & Fp & Fv & _).
    destruct (PriceSimulator_init sym
                match dict_get initial_prices sym with
                | Some p => p
                | None => fallback
                end default_volatility g1) as [sim g2].
    cbn [fst] in Fs, Fp, Fv.
    apply IH. intros k v.
    destruct (String.eqb_spec k sym) as [-> | Hk].
    + rewrite dict_get_set_same. intros E. injection E as <-.
      split; [exact Fs|]. split.
      * split; [|rewrite Fv; reflexivity]. rewrite Fp.
        destruct (dict_get initial_prices sym) as [p|] eqn:Et; trivial.
        now apply (initial_prices_valid sym).
      * unfold starting_price_ok. rewrite Fp.
        destruct (dict_get initial_prices sym) as [p|]; trivial.
        split; [|split; trivial].
        exists g. now rewrite Eu.
    + rewrite dict_get_set_other by trivial. apply Hacc.
Qed.

Lemma create_loop_has syms : forall acc g k,
  In k syms \/ dict_get acc k <> None ->
  dict_get (fst (create_loop syms acc g)) k <> None.
Proof.
  induction syms as [| sym rest IH]; intros acc g k Hk; cbn [create_loop].
  - destruct Hk as [[] | Hk]. exact Hk.
  - destruct (uniform ten thousand g) as [fallback g1].
    destruct (PriceSimulator_init sym _ default_volatility g1) as [sim g2].
    apply IH.
    destruct (String.eqb_spec k sym) as [-> | Hne].
    + right. rewrite dict_get_set_same. discriminate.
    + rewrite dict_get_set_other by trivial.
      destruct Hk as [[-> | Hin] | Hk]; [contradiction | now left | now right].
Qed.

(** C7: for every symbol of the configured list, [create_simulators] stores a
    simulator under that symbol whose price is the table price when the table
    has the symbol, and otherwise a draw of [uniform(10, 1000)], which lies
    in [10, 1000]. *)
Theorem create_simulators_starting_prices symbols g sym :
  In sym symbols ->
  exists sim,
    dict_get (fst (create_simulators symbols g)) sym = Some sim /\
    symbol sim = sym /\
    starting_price_ok sym sim.
Proof.
  intros Hin. unfold create_simulators.
  pose proof (create_loop_has symbols [] g sym (or_introl Hin)) as Hhas.
  destruct (dict_get (fst (create_loop symbols [] g)) sym) as [sim|] eqn:E;
    [|congruence].
  exists sim. split; trivial.
  assert (Hok : created_ok sym sim).
  { apply (create_loop_inv symbols [] g); trivial.
    intros k v Hk. discriminate. }
  destruct Hok as (Hs & _ & Hp). split; trivial.
Qed.

Lemma create_simulators_wf symbols g :
  wf_simulators (fst (create_simulators symbols g)).
Proof.
  intros k v Hk.
  assert (Hok : created_ok k v).
  { apply (create_loop_inv symbols [] g); trivial.
    intros k' v' Hk'. discriminate. }
  apply Hok.
Qed.

End Create.

(** ** The driver *)


Lemma no_kafka_snoc tr ev :
  forallb (fun e => negb (is_kafka e)) (rev (ev :: tr))
  = forallb (fun e => negb (is_kafka e)) (rev tr) && negb (is_kafka ev).
Proof. cbn [rev]. rewrite forallb_app. cbn. now rewrite andb_true_r. Qed.

Section Driver.
Context {G : Type} `{RandomSource G} (laws : RandomLaws G).

Lemma choice_ok {A} (seq : list A) g :
  seq <> [] -> exists x g', choice seq g = Ok (x, g') /\ In x seq.
Proof.
  intros Hne. unfold choice. destruct seq as [| a l]; [congruence|].
  pose proof (randbelow_range G laws (Z.of_nat (List.length (a :: l))) g
                ltac:(cbn [List.length]; lia)) as Hr.
  destruct (randbelow (Z.of_nat (List.length (a :: l))) g) as [i g'].
  cbn [fst] in Hr.
  destruct (nth_error (a :: l) (Z.to_nat i)) as [x|] eqn:E.
  - exists x, g'. split; trivial. eapply nth_error_In; eauto.
  - apply nth_error_None in E. lia.
Qed.

(** The generator yields a record as long as every symbol of its key list
    has a well-formed simulator; the simulators stay so. *)
Lemma generate_trades_ok symbols sims g now :
  symbols <> [] ->
  (forall k, In k symbols -> dict_get sims k <> None) ->
  wf_simulators sims ->
  exists trade sims' g',
    generate_trades symbols sims g now = Ok (trade, sims', g') /\
    (forall k, In k symbols -> dict_get sims' k <> None) /\
    wf_simulators sims'.
Proof.
  intros Hne Hkeys Hwf. unfold generate_trades.
  destruct (choice_ok symbols g Hne) as (sym & g1 & Ec & Hin).
  rewrite Ec. cbn [bind].
  specialize (Hkeys sym Hin) as Hsym.
  destruct (dict_get sims sym) as [sim|] eqn:Es; [|congruence].
  pose proof (Hwf sym sim Es) as Hsim.
  destruct (next_trade_ok laws sim g1 now Hsim) as (side & g2 & E & _).
  pose proof (next_trade_wf laws _ _ _ _ _ _ Hsim E) as Hsim'.
  rewrite E. cbn [bind]. eexists _, _, _. split; [reflexivity|]. split.
  - intros k Hk. destruct (String.eqb_spec k sym) as [-> | Hd].
    + rewrite dict_get_set_same. discriminate.
    + rewrite dict_get_set_other by trivial. now apply Hkeys.
  - intros k v. destruct (String.eqb_spec k sym) as [-> | Hd].
    + rewrite dict_get_set_same. intros Ev. injection Ev as <-. exact Hsim'.
    + rewrite dict_get_set_other by trivial. apply Hwf.
Qed.




(** C8: when opening the connection fails, [main] reports the failure and
    returns: nothing is printed as a record or sent, and the simulators and
    the random source are as [create_simulators] left them, so no call of
    [next_trade] was made. *)
Theorem connection_failure_stops fuel args reason clock g :
  dry_run args = false ->
  final (main fuel args (KafkaError reason) clock g) = STOPPED /\
  In (Stdout (ConnectFailed reason))
     (trace (main fuel args (KafkaError reason) clock g)) /\
  emitted (trace (main fuel args (KafkaError reason) clock g)) = [] /\
  simulators_at_exit (main fuel args (KafkaError reason) clock g)
    = fst (create_simulators (map strip (split ","%char (symbols args))) g) /\
  random_at_exit (main fuel args (KafkaError reason) clock g)
    = snd (create_simulators (map strip (split ","%char (symbols args))) g).
Proof.
  intros Hdry. unfold main. rewrite Hdry.
  destruct (create_simulators (map strip (split ","%char (symbols args))) g)
    as [sims g1].
  cbn. repeat split; auto 12.
Qed.

End Driver.

(** ** Rounding and the stored price *)

(** C9: [next_trade] stores the clamped price as it is and rounds only the
    copy that goes into the record, so the next step starts from the stored,
    unrounded price; on the DOGE/USD simulator with a draw two standard
    deviations up the stored price [0.08003199999999999] differs from the
    record price [0.080032], and the next walked price differs from the one
    that the record price would give. *)
Theorem rounding_does_not_feed_back :
  (forall (G : Type) (R : RandomSource G), RandomLaws G ->
   forall s g now, wf_simulator s ->
   exists trade s' g',
     next_trade s g now = Ok (trade, s', g') /\
     price s' = py_max (walked_price s g) price_floor /\
     Trade.price trade = round_value (price s') 8 /\
     forall g2,
       walked_price s' g2
       = mul (py_max (walked_price s g) price_floor)
             (add one (fst (gauss zero (volatility s) g2)))) /\
  match next_trade sim_doge tape_two_sigma (wall_clock 0) with
  | Ok (trade, s', g') =>
      Trade.price trade <> price s' /\
      walked_price s' g' <> walked_price (with_price s' (Trade.price trade)) g'
  | Raise _ => False
  end.
Proof.
  split.
  - intros G R laws s g now Hs.
    destruct (next_trade_ok laws s g now Hs) as (side & g' & E & _).
    eexists _, _, _. split; [exact E|]. repeat split.
  - vm_compute. split; discriminate.
Qed.

(** ** Concrete runs *)

Example table_has_btc : dict_get initial_prices "BTC/USD" = Some btc_start.
Proof. reflexivity. Qed.

Example created_btc_and_foo :
  map (fun kv => (fst kv, price (snd kv)))
      (fst (create_simulators ["BTC/USD"%string; "FOO/USD"%string]
              [flt (of_decimal false 123 0); int 7;
               flt (of_decimal false 123 0); int 8]))
  = [("BTC/USD"%string, btc_start);
     ("FOO/USD"%string, of_decimal false 123 0)].
Proof. vm_compute. reflexivity. Qed.

(** Rates at which the pacing sleep raises: zero, a negative rate, NaN. *)
Example pacing_failures :
  sleep_for_rate zero = Raise ZeroDivisionError /\
  sleep_for_rate minus_one = Raise ValueError /\
  sleep_for_rate S754_nan = Raise ValueError /\
  sleep_for_rate hundred = Ok (of_decimal false 1 2).
Proof. vm_compute. repeat split. Qed.

(** C1, as stated, fails: from a price on the floor, a draw one standard
    deviation down leaves the stored price equal to the floor, not above it;
    and a NaN price stays NaN, so that neither the stored price is above the
    floor nor the record price above zero. *)
Lemma price_not_above_floor :
  match next_trade sim_on_floor tape_down (wall_clock 0) with
  | Ok (_, s', _) =>
      price s' = price_floor /\ ltb price_floor (price s') = false
  | Raise _ => False
  end /\
  match next_trade sim_nan tape_down (wall_clock 0) with
  | Ok (trade, s', _) =>
      ltb price_floor (price s') = false /\
      ltb zero (Trade.price trade) = false
  | Raise _ => False
  end.
Proof. vm_compute. repeat split. Qed.


(** C10, as stated, fails: a NaN initial price is not clamped. *)
Lemma nan_price_is_not_clamped :
  match next_trade
          (fst (PriceSimulator_init "FOO/USD" S754_nan default_volatility tape_fresh))
          (snd (PriceSimulator_init "FOO/USD" S754_nan default_volatility tape_fresh))
          (wall_clock 0) with
  | Ok (_, s', _) =>
      is_nan (price s') = true /\ leb price_floor (price s') = false
  | Raise _ => False
  end.
Proof. vm_compute. split; reflexivity. Qed.

(** The BTC/USD simulator with a draw one standard deviation up: the stored
    price 45009.0 is above the floor and the record price is positive. *)
Lemma next_trade_price_at_least_floor_witness :
  wf_simulator sim_btc /\
  is_nan (walked_price sim_btc tape_up) = false /\
  exists trade s' g',
    next_trade sim_btc tape_up (wall_clock 0) = Ok (trade, s', g') /\
    leb price_floor (price s') = true /\
    ltb zero (Trade.price trade) = true.
Proof.
  assert (Hs : wf_simulator sim_btc) by (split; reflexivity).
  split; [exact Hs|]. split; [reflexivity|].
  apply (next_trade_price_at_least_floor script_laws sim_btc tape_up
           (wall_clock 0) Hs).
  reflexivity.
Defined.

(** A fresh BTC/USD simulator on a tape whose first draw is 234567: the
    counter starts at 1234567 and three calls emit 1234568, 1234569,
    1234570. *)
Lemma trade_ids_count_up_witness :
  valid btc_start = true /\ valid default_volatility = true /\
  wf_simulator sim_btc /\
  trade_id (fst (PriceSimulator_init "BTC/USD" btc_start default_volatility
                   tape_counter)) = 1234567 /\
  (trade_id (fst (PriceSimulator_init "BTC/USD" btc_start default_volatility
                    tape_counter))
     = 1000000 + fst (randbelow 9000000 tape_counter) /\
   snd (PriceSimulator_init "BTC/USD" btc_start default_volatility tape_counter)
     = snd (randbelow 9000000 tape_counter) /\
   1000000 <= trade_id (fst (PriceSimulator_init "BTC/USD" btc_start
                               default_volatility tape_counter)) <= 9999999) /\
  (exists trade s' g',
     next_trade sim_btc tape_up (wall_clock 0) = Ok (trade, s', g') /\
     trade_id s' = trade_id sim_btc + 1 /\
     Trade.trade_id trade = trade_id s') /\
  (exists trades s' g',
     run_trades 3 (fst (PriceSimulator_init "BTC/USD" btc_start
                          default_volatility tape_counter))
                  (snd (PriceSimulator_init "BTC/USD" btc_start
                          default_volatility tape_counter)) wall_clock
       = Ok (trades, s', g') /\
     map Trade.trade_id trades
       = map (fun i => trade_id (fst (PriceSimulator_init "BTC/USD" btc_start
                                        default_volatility tape_counter))
                       + Z.of_nat i) (seq 1 3)).
Proof.
  assert (Hs : wf_simulator sim_btc) by (split; reflexivity).
  split; [reflexivity|]. split; [reflexivity|]. split; [exact Hs|].
  split; [reflexivity|].
  exact (trade_ids_count_up script_laws "BTC/USD" btc_start default_volatility
           tape_counter sim_btc tape_up (wall_clock 0) 3 wall_clock
           eq_refl eq_refl Hs).
Defined.

(** The BTC/USD simulator with the log-normal draw [6e-06], near the lower
    end of the sampler: the scaled draw is at least [5e-09] and the volume
    field is positive. *)
Lemma next_trade_volume_positive_witness :
  RandomLaws tape /\ SamplerTail tape /\ wf_simulator sim_btc /\
  exists trade s' g',
    next_trade sim_btc tape_small_volume (wall_clock 0) = Ok (trade, s', g') /\
    Trade.volume trade = round_value (scaled_volume sim_btc tape_small_volume) 8 /\
    leb half_unit8 (scaled_volume sim_btc tape_small_volume) = true /\
    ltb zero (Trade.volume trade) = true.
Proof.
  assert (Hs : wf_simulator sim_btc) by (split; reflexivity).
  split; [exact script_laws|]. split; [exact script_tail|]. split; [exact Hs|].
  exact (next_trade_volume_positive script_laws sim_btc tape_small_volume
           (wall_clock 0) script_tail Hs).
Defined.


(** The DOGE/USD simulator with a draw two standard deviations up. *)
Lemma next_trade_eight_decimals_witness :
  wf_simulator sim_doge /\
  exists trade s' g',
    next_trade sim_doge tape_two_sigma (wall_clock 0) = Ok (trade, s', g') /\
    Trade.price trade = round_value (price s') 8 /\
    (is_finite (Trade.price trade) = true ->
       has_8_decimals (Trade.price trade)) /\
    has_8_decimals (Trade.volume trade).
Proof.
  assert (Hs : wf_simulator sim_doge) by (split; reflexivity).
  split; [exact Hs|].
  exact (next_trade_eight_decimals script_laws sim_doge tape_two_sigma
           (wall_clock 0) Hs).
Defined.

(** The symbol FOO/USD, which the table does not have, next to BTC/USD. *)
Lemma create_simulators_starting_prices_witness :
  In "FOO/USD"%string ["BTC/USD"%string; "FOO/USD"%string] /\
  dict_get initial_prices "FOO/USD" = None /\
  exists sim,
    dict_get (fst (create_simulators ["BTC/USD"%string; "FOO/USD"%string]
                     tape_fresh)) "FOO/USD" = Some sim /\
    symbol sim = "FOO/USD"%string /\
    starting_price_ok "FOO/USD" sim.
Proof.
  assert (Hin : In "FOO/USD"%string ["BTC/USD"%string; "FOO/USD"%string])
    by (right; left; reflexivity).
  split; [exact Hin|]. split; [reflexivity|].
  exact (create_simulators_starting_prices script_laws
           ["BTC/USD"%string; "FOO/USD"%string] tape_fresh "FOO/USD" Hin).
Defined.

(** A run against a queue that refuses the connection. *)
Lemma connection_failure_stops_witness :
  dry_run args_queue = false /\
  final (main 10 args_queue (KafkaError "NoBrokersAvailable") wall_clock tape_fresh)
    = STOPPED /\
  emitted (trace (main 10 args_queue (KafkaError "NoBrokersAvailable")
                    wall_clock tape_fresh)) = [].
Proof.
  split; [reflexivity|].
  destruct (connection_failure_stops 10 args_queue "NoBrokersAvailable"
              wall_clock tape_fresh eq_refl) as (Hf & _ & He & _).
  split; [exact Hf | exact He].
Defined.

(** The universal half of the theorem at the DOGE/USD simulator. *)
Lemma rounding_does_not_feed_back_witness :
  wf_simulator sim_doge /\
  exists trade s' g',
    next_trade sim_doge tape_two_sigma (wall_clock 0) = Ok (trade, s', g') /\
    price s' = py_max (walked_price sim_doge tape_two_sigma) price_floor /\
    Trade.price trade = round_value (price s') 8 /\
    forall g2,
      walked_price s' g2
      = mul (py_max (walked_price sim_doge tape_two_sigma) price_floor)
            (add one (fst (gauss zero (volatility sim_doge) g2))).
Proof.
  assert (Hs : wf_simulator sim_doge) by (split; reflexivity).
  split; [exact Hs|].
  exact (proj1 rounding_does_not_feed_back tape source script_laws sim_doge
           tape_two_sigma (wall_clock 0) Hs).
Defined.

(** A simulator constructed with the negative initial price -5.0. *)
Lemma next_trade_total_witness :
  valid minus_five = true /\ valid default_volatility = true /\
  exists trade s' g',
    next_trade (fst (PriceSimulator_init "FOO/USD" minus_five
                       default_volatility tape_fresh))
               (snd (PriceSimulator_init "FOO/USD" minus_five
                       default_volatility tape_fresh)) (wall_clock 0)
      = Ok (trade, s', g') /\
    leb price_floor (price s')
      = negb (is_nan (walked_price
                        (fst (PriceSimulator_init "FOO/USD" minus_five
                                default_volatility tape_fresh))
                        (snd (PriceSimulator_init "FOO/USD" minus_five
                                default_volatility tape_fresh)))) /\
    is_nan (price s')
      = is_nan (walked_price
                  (fst (PriceSimulator_init "FOO/USD" minus_five
                          default_volatility tape_fresh))
                  (snd (PriceSimulator_init "FOO/USD" minus_five
                          default_volatility tape_fresh))).
Proof.
  split; [reflexivity|]. split; [reflexivity|].
  exact (next_trade_total script_laws "FOO/USD" minus_five default_volatility
           tape_fresh (wall_clock 0) eq_refl eq_refl).
Defined.

(* ===================================================================== *)
(** * Part III: further properties of the producer *)
(* ===================================================================== *)

(** ** The symbol list of the command line *)

Lemma split_length sep s :
  List.length (split sep s) = S (occurrences sep s).
Proof.
  induction s as [| c rest IH]; cbn [split occurrences]; [reflexivity|].
  destruct (Ascii.eqb c sep).
  - cbn [List.length]. now rewrite IH.
  - destruct (split sep rest) as [| p ps]; cbn [List.length] in *; lia.
Qed.

Lemma split_parts_free sep s p :
  In p (split sep s) -> contains sep p = false.
Proof.
  revert p. induction s as [| c rest IH]; cbn [split]; intros p Hp.
  - destruct Hp as [<- | []]. reflexivity.
  - destruct (Ascii.eqb c sep) eqn:Ec.
    + destruct Hp as [<- | Hp]; [reflexivity | now apply IH].
    + destruct (split sep rest) as [| q qs].
      * destruct Hp as [<- | []]. cbn. now rewrite Ec.
      * destruct Hp as [<- | Hp].
        -- cbn. rewrite Ec. cbn. apply IH. now left.
        -- apply IH. now right.
Qed.

Lemma split_free sep s : contains sep s = false -> split sep s = [s].
Proof.
  induction s as [| c rest IH]; cbn [contains split]; [reflexivity|].
  intros Hc. apply orb_false_elim in Hc as [Ec Hr].
  rewrite Ec, (IH Hr). reflexivity.
Qed.

Lemma split_app sep s t :
  contains sep s = false ->
  split sep (s ++ String sep t) = s :: split sep t.
Proof.
  induction s as [| c rest IH]; cbn [contains append split].
  - intros _. now rewrite Ascii.eqb_refl.
  - intros Hc. apply orb_false_elim in Hc as [Ec Hr].
    rewrite Ec, (IH Hr). reflexivity.
Qed.

Lemma split_concat sep l :
  l <> [] ->
  Forall (fun p => contains sep p = false) l ->
  split sep (String.concat (String sep EmptyString) l) = l.
Proof.
  induction l as [| x l IH]; [congruence|]. intros _ Hl.
  inversion Hl as [| ? ? Hx Hrest]; subst.
  destruct l as [| y l'].
  - cbn [String.concat]. now apply split_free.
  - change (String.concat (String sep EmptyString) (x :: y :: l'))
      with (x ++ String sep (String.concat (String sep EmptyString) (y :: l')))%string.
    rewrite split_app by trivial. f_equal. apply IH; [discriminate | trivial].
Qed.

Lemma lstrip_first s : first_is_space (lstrip s) = false.
Proof.
  induction s as [| c rest IH]; cbn [lstrip]; [reflexivity|].
  destruct (is_space c) eqn:E; [exact IH | cbn; exact E].
Qed.

Lemma rstrip_last s : last_is_space (rstrip s) = false.
Proof.
  induction s as [| c rest IH]; cbn [rstrip]; [reflexivity|].
  destruct (rstrip rest) as [| c' r'].
  - destruct (is_space c) eqn:E; cbn; trivial.
  - exact IH.
Qed.

Lemma rstrip_first s :
  first_is_space s = false -> first_is_space (rstrip s) = false.
Proof.
  destruct s as [| c rest]; cbn [first_is_space rstrip]; trivial.
  intros E. destruct (rstrip rest); [rewrite E|]; exact E.
Qed.

Lemma lstrip_contains c s :
  contains c s = false -> contains c (lstrip s) = false.
Proof.
  induction s as [| c' rest IH]; cbn [contains lstrip]; trivial.
  intros Hc. destruct (is_space c'); [|exact Hc].
  apply orb_false_elim in Hc as [_ Hr]. now apply IH.
Qed.

Lemma rstrip_contains c s :
  contains c s = false -> contains c (rstrip s) = false.
Proof.
  induction s as [| c' rest IH]; cbn [contains rstrip]; trivial.
  intros Hc. apply orb_false_elim in Hc as [Ec Hr]. specialize (IH Hr).
  destruct (rstrip rest) as [| c2 r2].
  - destruct (is_space c'); cbn; trivial. now rewrite Ec.
  - cbn [contains] in *. now rewrite Ec, IH.
Qed.

Lemma strip_clean_symbol s :
  contains ","%char s = false -> clean_symbol (strip s) = true.
Proof.
  intros Hc. unfold clean_symbol, strip.
  rewrite rstrip_contains by now apply lstrip_contains.
  rewrite rstrip_first by apply lstrip_first.
  now rewrite rstrip_last.
Qed.

Lemma lstrip_id s : first_is_space s = false -> lstrip s = s.
Proof. destruct s as [| c rest]; cbn; trivial. now intros ->. Qed.

Lemma rstrip_id s : last_is_space s = false -> rstrip s = s.
Proof.
  induction s as [| c rest IH]; trivial.
  destruct rest as [| c' r'].
  - cbn. now intros ->.
  - intros Hl. change (last_is_space (String c (String c' r')))
      with (last_is_space (String c' r')) in Hl.
    cbn [rstrip]. cbn [rstrip] in IH. now rewrite (IH Hl).
Qed.

Lemma strip_id s : clean_symbol s = true -> strip s = s.
Proof.
  unfold clean_symbol, strip. intros H.
  apply andb_prop in H as [H Hl]. apply andb_prop in H as [_ Hf].
  apply negb_true_iff in Hl, Hf.
  now rewrite lstrip_id, rstrip_id.
Qed.

(** X1: the symbol list that [main] builds from [--symbols] is never empty:
    it has one entry more than the argument has commas, and no entry holds a
    comma or starts or ends with white space. *)
Theorem parsed_symbols_shape s :
  List.length (map strip (split ","%char s)) = S (occurrences ","%char s) /\
  Forall (fun p => clean_symbol p = true) (map strip (split ","%char s)).
Proof.
  split.
  - now rewrite length_map, split_length.
  - apply Forall_forall. intros p Hp. apply in_map_iff in Hp as (q & <- & Hq).
    apply strip_clean_symbol. now apply (split_parts_free _ s).
Qed.

(** X2: joining symbols with commas and parsing the result gives the
    symbols back, for every non-empty list of ASCII symbols without commas
    and without white space at their ends; the default of [--symbols] is
    built this way from [DEFAULT_SYMBOLS]. *)
Theorem join_then_parse l :
  l <> [] ->
  Forall (fun p => ascii_only p = true) l ->
  Forall (fun p => clean_symbol p = true) l ->
  map strip (split ","%char (String.concat "," l)) = l.
Proof.
  intros Hne _ Hl.
  rewrite split_concat; trivial.
  - rewrite <- (map_id l) at 2. apply map_ext_in. intros p Hp.
    apply strip_id. rewrite Forall_forall in Hl. now apply Hl.
  - eapply Forall_impl; [|exact Hl]. cbn beta. intros p Hp.
    unfold clean_symbol in Hp.
    apply andb_prop in Hp as [Hp _]. apply andb_prop in Hp as [Hp _].
    now apply negb_true_iff in Hp.
Qed.

Lemma join_then_parse_witness :
  DEFAULT_SYMBOLS <> [] /\
  Forall (fun p => ascii_only p = true) DEFAULT_SYMBOLS /\
  Forall (fun p => clean_symbol p = true) DEFAULT_SYMBOLS /\
  String.concat "," DEFAULT_SYMBOLS
    = "BTC/USD,ETH/USD,SOL/USD,DOGE/USD"%string /\
  map strip (split ","%char (String.concat "," DEFAULT_SYMBOLS))
    = DEFAULT_SYMBOLS.
Proof.
  assert (Hne : DEFAULT_SYMBOLS <> []) by discriminate.
  assert (Ha : Forall (fun p => ascii_only p = true) DEFAULT_SYMBOLS)
    by (repeat constructor).
  assert (Hl : Forall (fun p => clean_symbol p = true) DEFAULT_SYMBOLS)
    by (repeat constructor).
  split; [exact Hne|]. split; [exact Ha|]. split; [exact Hl|].
  split; [reflexivity|].
  exact (join_then_parse DEFAULT_SYMBOLS Hne Ha Hl).
Defined.

(** ** More on [create_simulators] *)

Lemma dict_set_keys_in {V} (d : dict V) k v k' :
  In k' (dict_keys (dict_set d k v)) <-> k' = k \/ In k' (dict_keys d).
Proof.
  rewrite !dict_keys_get.
  destruct (String.eqb_spec k' k) as [-> | Hne].
  - rewrite dict_get_set_same. split; [auto | discriminate].
  - rewrite dict_get_set_other by trivial. split; [auto | intros [? | ?]; tauto].
Qed.

Lemma dict_set_keys_nodup {V} (d : dict V) k v :
  NoDup (dict_keys d) -> NoDup (dict_keys (dict_set d k v)).
Proof.
  induction d as [| [k0 v0] d IH]; intros Hnd.
  - cbn. constructor; [intros [] | constructor].
  - cbn [dict_set]. destruct (String.eqb_spec k0 k) as [-> | Hne].
    + exact Hnd.
    + change (dict_keys ((k0, v0) :: dict_set d k v))
        with (k0 :: dict_keys (dict_set d k v)).
      change (dict_keys ((k0, v0) :: d)) with (k0 :: dict_keys d) in Hnd.
      inversion Hnd as [| ? ? Hnotin Hnd']; subst.
      constructor; [|now apply IH].
      rewrite dict_set_keys_in. intros [? | ?]; [congruence | contradiction].
Qed.

Lemma dict_set_keys {V} (d : dict V) k v :
  dict_keys (dict_set d k v)
  = if existsb (fun z => String.eqb z k) (dict_keys d)
    then dict_keys d else dict_keys d ++ [k].
Proof.
  induction d as [| [k0 v0] d IH]; [reflexivity|].
  cbn [dict_set dict_keys map fst existsb].
  destruct (String.eqb k0 k); [reflexivity|]. cbn [orb map fst].
  fold (dict_keys (dict_set d k v)). fold (dict_keys d). rewrite IH.
  now destruct (existsb (fun z => String.eqb z k) (dict_keys d)).
Qed.

Lemma filter_filter {A} (P Q : A -> bool) l :
  filter P (filter Q l) = filter (fun y => Q y && P y) l.
Proof.
  induction l as [| a l IH]; [reflexivity|]. cbn [filter].
  destruct (Q a); cbn [filter andb]; [destruct (P a)|]; now rewrite IH.
Qed.

Section CreateMore.
Context {G : Type} `{RandomSource G} (laws : RandomLaws G).

Lemma init_random sym p0 vol g :
  snd (PriceSimulator_init sym p0 vol g) = snd (randint 1000000 9999999 g).
Proof.
  unfold PriceSimulator_init. now destruct (randint 1000000 9999999 g).
Qed.

Lemma create_loop_keys syms : forall acc g,
  NoDup (dict_keys acc) ->
  NoDup (dict_keys (fst (create_loop syms acc g))) /\
  forall k, In k (dict_keys (fst (create_loop syms acc g)))
            <-> In k syms \/ In k (dict_keys acc).
Proof.
  induction syms as [| sym rest IH]; intros acc g Hnd; cbn [create_loop].
  - split; trivial. intros k. cbn. tauto.
  - destruct (uniform ten thousand g) as [fallback g1].
    destruct (PriceSimulator_init sym _ default_volatility g1) as [sim g2].
    destruct (IH (dict_set acc sym sim) g2 (dict_set_keys_nodup acc sym sim Hnd))
      as [Hnd' Hin].
    split; trivial. intros k. rewrite Hin, dict_set_keys_in. cbn [In].
    split; intros Hk; intuition congruence.
Qed.

Lemma create_loop_all (P : string -> PriceSimulator -> Prop) syms :
  (forall sym p g, P sym (fst (PriceSimulator_init sym p default_volatility g))) ->
  forall acc g,
    (forall k v, dict_get acc k = Some v -> P k v) ->
    forall k v, dict_get (fst (create_loop syms acc g)) k = Some v -> P k v.
Proof.
  intros Hinit. induction syms as [| sym rest IH]; intros acc g Hacc;
    cbn [create_loop]; [exact Hacc|].
  destruct (uniform ten thousand g) as [fallback g1].
  pose proof (Hinit sym
                match dict_get initial_prices sym with
                | Some p => p
                | None => fallback
                end g1) as Hsim.
  destruct (PriceSimulator_init sym _ default_volatility g1) as [sim g2].
  cbn [fst] in Hsim. apply IH. intros k v.
  destruct (String.eqb_spec k sym) as [-> | Hk].
  - rewrite dict_get_set_same. intros E. now injection E as <-.
  - rewrite dict_get_set_other by trivial. apply Hacc.
Qed.

(** The keys of the dictionary are those it had, then the new symbols in
    the order in which the loop first meets them. *)
Lemma create_loop_order syms : forall acc g,
  dict_keys (fst (create_loop syms acc g))
  = dict_keys acc
    ++ filter (fun y => negb (existsb (fun z => String.eqb z y) (dict_keys acc)))
              (first_seen syms).
Proof.
  induction syms as [| sym rest IH]; intros acc g; cbn [create_loop].
  - cbn. now rewrite app_nil_r.
  - destruct (uniform ten thousand g) as [fallback g1].
    destruct (PriceSimulator_init sym _ default_volatility g1) as [sim g2].
    rewrite IH, dict_set_keys. cbn [first_seen filter].
    destruct (existsb (fun z => String.eqb z sym) (dict_keys acc)) eqn:Em;
      cbn [negb].
    + f_equal. rewrite filter_filter. apply filter_ext_in. intros y _.
      destruct (String.eqb_spec y sym) as [-> | Hne]; cbn [negb andb];
        [now rewrite Em | reflexivity].
    + rewrite <- app_assoc. cbn [app]. do 2 f_equal.
      rewrite filter_filter. apply filter_ext_in. intros y _.
      rewrite existsb_app. cbn [existsb]. rewrite orb_false_r, negb_orb.
      rewrite (String.eqb_sym sym y). apply andb_comm.
Qed.

(** X3: [create_simulators] returns one simulator for every distinct symbol
    of its argument and nothing else, the keys in the order in which the
    symbols first occur; each is stored under its own symbol, has the default
    volatility 0.0002 and a trade counter in [1000000, 9999999]. *)
Theorem create_simulators_one_per_symbol symbols g :
  dict_keys (fst (create_simulators symbols g)) = first_seen symbols /\
  NoDup (dict_keys (fst (create_simulators symbols g))) /\
  (forall k, In k (dict_keys (fst (create_simulators symbols g)))
             <-> In k symbols) /\
  (forall k sim,
     dict_get (fst (create_simulators symbols g)) k = Some sim ->
     symbol sim = k /\ volatility sim = default_volatility /\
     1000000 <= trade_id sim <= 9999999).
Proof.
  unfold create_simulators.
  destruct (create_loop_keys symbols [] g (NoDup_nil _)) as [Hnd Hin].
  split; [|split; [exact Hnd | split]].
  - rewrite create_loop_order. cbn [dict_keys map app existsb negb].
    clear. induction (first_seen symbols) as [| a l IH]; [reflexivity|].
    cbn [filter]. now rewrite IH.
  - intros k. rewrite Hin. cbn. tauto.
  - apply (create_loop_all
             (fun k sim => symbol sim = k /\ volatility sim = default_volatility /\
                           1000000 <= trade_id sim <= 9999999)).
    + intros sym p g0.
      destruct (init_fields sym p default_volatility g0) as (-> & _ & -> & ->).
      split; [reflexivity|]. split; [reflexivity|].
      apply (randint_range laws); lia.
    + intros k v Hk. discriminate.
Qed.

Lemma create_loop_random l1 : forall l2 acc1 acc2 g,
  List.length l1 = List.length l2 ->
  snd (create_loop l1 acc1 g) = snd (create_loop l2 acc2 g).
Proof.
  induction l1 as [| s1 l1 IH]; intros [| s2 l2] acc1 acc2 g Hlen;
    try discriminate; [reflexivity|].
  cbn [create_loop].
  destruct (uniform ten thousand g) as [fallback g1].
  pose proof (init_random s1
                match dict_get initial_prices s1 with
                | Some p => p
                | None => fallback
                end default_volatility g1) as H1.
  pose proof (init_random s2
                match dict_get initial_prices s2 with
                | Some p => p
                | None => fallback
                end default_volatility g1) as H2.
  destruct (PriceSimulator_init s1 _ default_volatility g1) as [sim1 g2].
  destruct (PriceSimulator_init s2 _ default_volatility g1) as [sim2 g2'].
  cbn [snd] in H1, H2. rewrite H1, H2.
  apply IH. now injection Hlen.
Qed.

(** X4: what [create_simulators] draws from the random source depends only
    on how many symbols it is given: a symbol of the price table costs the
    same [uniform] draw as an unknown one, so two symbol lists of the same
    length leave the random source in the same state. *)
Theorem create_simulators_draws symbols1 symbols2 g :
  List.length symbols1 = List.length symbols2 ->
  snd (create_simulators symbols1 g) = snd (create_simulators symbols2 g).
Proof. apply create_loop_random. Qed.

End CreateMore.

Lemma create_simulators_one_per_symbol_witness :
  RandomLaws tape /\
  first_seen ["FOO/USD"%string; "BTC/USD"%string; "FOO/USD"%string;
              "ETH/USD"%string; "BTC/USD"%string]
    = ["FOO/USD"%string; "BTC/USD"%string; "ETH/USD"%string] /\
  dict_keys (fst (create_simulators
                    ["FOO/USD"%string; "BTC/USD"%string; "FOO/USD"%string;
                     "ETH/USD"%string; "BTC/USD"%string]
                    tape_fresh))
    = first_seen ["FOO/USD"%string; "BTC/USD"%string; "FOO/USD"%string;
                  "ETH/USD"%string; "BTC/USD"%string].
Proof.
  split; [exact script_laws|]. split; [reflexivity|].
  exact (proj1 (create_simulators_one_per_symbol script_laws
                  ["FOO/USD"%string; "BTC/USD"%string; "FOO/USD"%string;
                   "ETH/USD"%string; "BTC/USD"%string]
                  tape_fresh)).
Defined.

Lemma create_simulators_draws_witness :
  List.length ["BTC/USD"%string; "ETH/USD"%string]
    = List.length ["FOO/USD"%string; "BAR/USD"%string] /\
  snd (create_simulators ["BTC/USD"%string; "ETH/USD"%string] tape_two_sigma)
    = snd (create_simulators ["FOO/USD"%string; "BAR/USD"%string] tape_two_sigma).
Proof.
  split; [reflexivity|].
  exact (create_simulators_draws ["BTC/USD"%string; "ETH/USD"%string]
           ["FOO/USD"%string; "BAR/USD"%string] tape_two_sigma eq_refl).
Defined.

(** ** When the walked price is a number *)

Lemma mul_not_nan x y :
  valid x = true -> valid y = true ->
  is_finite x = true -> is_zero x = false -> is_nan y = false ->
  is_nan (mul x y) = false.
Proof.
  intros Hx Hy Hf Hz Hn.
  destruct x as [sx | sx | | sx mx ex]; try discriminate.
  destruct y as [sy | sy | | sy my ey]; try discriminate; try reflexivity.
  unfold mul. cbn [SFmul].
  destruct (mul_finite_pre mx ex my ey Hx Hy) as [Hpre _].
  destruct (binary_round_aux_ok (xorb sx sy) (Zpos (mx * my)) (ex + ey)
              loc_Exact ltac:(lia) Hpre) as (_ & Hs & _).
  destruct (binary_round_aux prec emax (xorb sx sy) (Zpos (mx * my)) (ex + ey)
              loc_Exact); trivial; discriminate.
Qed.

Lemma mul_finite_not_nan x y :
  valid x = true -> valid y = true ->
  is_finite x = true -> is_finite y = true ->
  is_nan (mul x y) = false.
Proof.
  intros Hx Hy Hfx Hfy.
  destruct x as [sx | sx | | sx mx ex]; try discriminate.
  - destruct y; try discriminate; reflexivity.
  - apply mul_not_nan; trivial. destruct y; try discriminate; reflexivity.
Qed.

Lemma add_finite_not_nan x y :
  is_finite x = true -> is_nan y = false -> is_nan (add x y) = false.
Proof.
  intros Hf Hn.
  destruct x as [sx | sx | | sx mx ex]; try discriminate;
    destruct y as [sy | sy | | sy my ey]; try discriminate; try reflexivity.
  - now destruct sx, sy.
  - unfold add. cbn [SFadd]. unfold binary_normalize.
    match goal with
    | |- context [match ?z with Z0 => _ | Zpos _ => _ | Zneg _ => _ end] =>
        destruct z as [| p | p]
    end; [reflexivity | |].
    + destruct (binary_round_ok false p (Z.min ex ey)) as [_ Hs].
      destruct (binary_round prec emax false p (Z.min ex ey)); trivial; discriminate.
    + destruct (binary_round_ok true p (Z.min ex ey)) as [_ Hs].
      destruct (binary_round prec emax true p (Z.min ex ey)); trivial; discriminate.
Qed.

Section FinitePrices.
Context {G : Type} `{RandomSource G} (laws : RandomLaws G).

(** A finite price other than zero and a finite volatility never walk to
    NaN. *)
Lemma walked_price_not_nan s g :
  wf_simulator s ->
  is_finite (price s) = true -> is_zero (price s) = false ->
  is_finite (volatility s) = true ->
  is_nan (walked_price s g) = false.
Proof.
  intros [Hp Hv] Hfp Hzp Hfv.
  pose proof (gauss_valid laws (volatility s) g Hv) as Hg.
  unfold walked_price. apply mul_not_nan; trivial.
  - apply add_valid; [reflexivity | exact Hg].
  - apply add_finite_not_nan; [reflexivity|].
    unfold gauss in *.
    pose proof (normal_deviate_finite G laws g) as [Hz Hzf].
    destruct (normal_deviate g) as [z g']. cbn [fst] in *.
    apply add_finite_not_nan; [reflexivity|].
    now apply mul_finite_not_nan.
Qed.

Lemma above_floor_is_number x :
  leb price_floor x = true ->
  is_nan x = false /\ is_zero x = false /\ has_sign false x = true.
Proof.
  unfold price_floor. intros Hle.
  apply leb_finite_inv in Hle as [-> | (m & e & -> & _)]; repeat split.
Qed.

(** X5: for a simulator whose price is finite and not zero and whose
    volatility is finite, a call of [next_trade] returns, stores a price that
    is a number at least [0.0001] and puts a strictly positive price in the
    record: the clamp works without any further condition. *)
Theorem finite_price_is_clamped s g now :
  wf_simulator s ->
  is_finite (price s) = true -> is_zero (price s) = false ->
  is_finite (volatility s) = true ->
  exists trade s' g',
    next_trade s g now = Ok (trade, s', g') /\
    leb price_floor (price s') = true /\
    is_nan (price s') = false /\
    is_zero (price s') = false /\
    ltb zero (Trade.price trade) = true.
Proof.
  intros Hs Hfp Hzp Hfv.
  pose proof (walked_price_not_nan s g Hs Hfp Hzp Hfv) as Hn.
  destruct (next_trade_ok laws s g now Hs) as (side & g' & E & _).
  eexists _, _, _. split; [exact E|]. cbn [price Trade.price].
  pose proof (py_max_floor _ Hn) as Hfl. fold (clamped_price s g) in Hfl.
  destruct (above_floor_is_number _ Hfl) as (Hnn & Hnz & _).
  repeat split; trivial.
  apply round_value8_above_floor; trivial.
  now apply clamped_price_valid.
Qed.

Lemma initial_prices_finite k p :
  dict_get initial_prices k = Some p ->
  is_finite p = true /\ is_zero p = false.
Proof.
  unfold initial_prices. cbn [dict_get].
  repeat match goal with
         | |- context [String.eqb ?a k] => destruct (String.eqb a k)
         end;
    intros E; try discriminate; injection E as <-; split; reflexivity.
Qed.

Lemma between_ten_and_thousand x :
  leb ten x = true -> leb x thousand = true ->
  is_finite x = true /\ is_zero x = false.
Proof.
  unfold ten. intros Hlo Hhi.
  apply leb_finite_inv in Hlo as [-> | (m & e & -> & _)].
  - discriminate.
  - split; reflexivity.
Qed.

(** X6: every simulator that [create_simulators] stores can trade at once:
    whatever the random source and the clock are at the call, [next_trade]
    on it returns a record of its symbol with a strictly positive price, and
    the stored price is at least [0.0001]. *)
Theorem created_simulators_trade symbols g sym :
  In sym symbols ->
  exists sim,
    dict_get (fst (create_simulators symbols g)) sym = Some sim /\
    forall g1 now,
    exists trade s' g',
      next_trade sim g1 now = Ok (trade, s', g') /\
      Trade.symbol trade = sym /\
      leb price_floor (price s') = true /\
      ltb zero (Trade.price trade) = true.
Proof.
  intros Hin. unfold create_simulators.
  pose proof (create_loop_has symbols [] g sym (or_introl Hin)) as Hhas.
  destruct (dict_get (fst (create_loop symbols [] g)) sym) as [sim|] eqn:E;
    [|congruence].
  exists sim. split; trivial.
  assert (Hok : created_ok sym sim).
  { apply (create_loop_inv laws symbols [] g); trivial.
    intros k v Hk. discriminate. }
  assert (Hvol : volatility sim = default_volatility).
  { apply (create_loop_all (fun _ s => volatility s = default_volatility)
             symbols) with (acc := []) (g := g) (k := sym); trivial.
    - intros s0 p g0. apply init_fields.
    - intros k v Hk. discriminate. }
  destruct Hok as (Hsym & Hwf & Hprice).
  assert (Hfin : is_finite (price sim) = true /\ is_zero (price sim) = false).
  { unfold starting_price_ok in Hprice.
    destruct (dict_get initial_prices sym) as [p|] eqn:Et.
    - rewrite Hprice. now apply (initial_prices_finite sym).
    - destruct Hprice as (_ & Hlo & Hhi). now apply between_ten_and_thousand. }
  destruct Hfin as [Hf Hz].
  intros g1 now.
  assert (Hn : is_nan (walked_price sim g1) = false).
  { apply walked_price_not_nan; trivial. now rewrite Hvol. }
  destruct (next_trade_ok laws sim g1 now Hwf) as (side & g' & En & _).
  eexists _, _, _. split; [exact En|]. cbn [price Trade.price Trade.symbol].
  pose proof (py_max_floor _ Hn) as Hfl. fold (clamped_price sim g1) in Hfl.
  repeat split; trivial.
  apply round_value8_above_floor; trivial.
  now apply clamped_price_valid.
Qed.

(** X7: along any number of successive calls on one simulator, the symbol
    and the volatility of the simulator never change, every record carries
    that symbol and the side "buy" or "sell", and the time stamp of the
    [i]-th record is the clock reading of the [i]-th call. *)
Theorem run_trades_records n : forall s g clock,
  wf_simulator s ->
  exists trades s' g',
    run_trades n s g clock = Ok (trades, s', g') /\
    symbol s' = symbol s /\ volatility s' = volatility s /\
    Forall (fun t => Trade.symbol t = symbol s /\
                     (Trade.side t = "buy"%string \/
                      Trade.side t = "sell"%string)) trades /\
    map Trade.exchange_time trades = map clock (seq 0 n).
Proof.
  induction n as [| n IH]; intros s g clock Hs.
  - exists [], s, g. cbn [run_trades map seq]. repeat split; constructor.
  - destruct (next_trade_ok laws s g (clock O) Hs) as (side & g1 & E & Hside).
    pose proof (next_trade_wf laws _ _ _ _ _ _ Hs E) as Hs1.
    cbn [run_trades]. rewrite E. cbn [bind].
    match type of E with _ = Ok (_, ?s1, _) =>
      destruct (IH s1 g1 (fun i => clock (S i)) Hs1)
        as (trades & s2 & g2 & E2 & Hsym & Hvol & Hall & Htimes)
    end.
    rewrite E2. cbn [bind]. cbn [symbol volatility] in Hsym, Hvol, Hall.
    eexists _, _, _. split; [reflexivity|].
    split; [exact Hsym|]. split; [exact Hvol|]. split.
    + constructor; [|exact Hall]. cbn [Trade.symbol Trade.side]. now split.
    + cbn [map seq Trade.exchange_time]. f_equal.
      rewrite Htimes, <- (seq_shift n 0), map_map. reflexivity.
Qed.

End FinitePrices.

Lemma finite_price_is_clamped_witness :
  wf_simulator sim_doge /\
  is_finite (price sim_doge) = true /\ is_zero (price sim_doge) = false /\
  is_finite (volatility sim_doge) = true /\
  exists trade s' g',
    next_trade sim_doge tape_two_sigma (wall_clock 0) = Ok (trade, s', g') /\
    leb price_floor (price s') = true /\
    is_nan (price s') = false /\
    is_zero (price s') = false /\
    ltb zero (Trade.price trade) = true.
Proof.
  assert (Hs : wf_simulator sim_doge) by (split; reflexivity).
  split; [exact Hs|]. split; [reflexivity|]. split; [reflexivity|].
  split; [reflexivity|].
  exact (finite_price_is_clamped script_laws sim_doge tape_two_sigma
           (wall_clock 0) Hs eq_refl eq_refl eq_refl).
Defined.

Lemma created_simulators_trade_witness :
  In "FOO/USD"%string ["BTC/USD"%string; "FOO/USD"%string] /\
  exists sim,
    dict_get (fst (create_simulators ["BTC/USD"%string; "FOO/USD"%string]
                     tape_fresh)) "FOO/USD" = Some sim /\
    forall g1 now,
    exists trade s' g',
      next_trade sim g1 now = Ok (trade, s', g') /\
      Trade.symbol trade = "FOO/USD"%string /\
      leb price_floor (price s') = true /\
      ltb zero (Trade.price trade) = true.
Proof.
  assert (Hin : In "FOO/USD"%string ["BTC/USD"%string; "FOO/USD"%string])
    by (right; left; reflexivity).
  split; [exact Hin|].
  exact (created_simulators_trade script_laws
           ["BTC/USD"%string; "FOO/USD"%string] tape_fresh "FOO/USD" Hin).
Defined.

Lemma run_trades_records_witness :
  wf_simulator sim_doge /\
  exists trades s' g',
    run_trades 2 sim_doge tape_two_sigma wall_clock = Ok (trades, s', g') /\
    symbol s' = symbol sim_doge /\ volatility s' = volatility sim_doge /\
    Forall (fun t => Trade.symbol t = symbol sim_doge /\
                     (Trade.side t = "buy"%string \/
                      Trade.side t = "sell"%string)) trades /\
    map Trade.exchange_time trades = map wall_clock (seq 0 2).
Proof.
  assert (Hs : wf_simulator sim_doge) by (split; reflexivity).
  split; [exact Hs|].
  exact (run_trades_records script_laws 2 sim_doge tape_two_sigma wall_clock Hs).
Defined.

(** ** The generator [generate_trades] *)

Section GeneratorFacts.
Context {G : Type} `{RandomSource G} (laws : RandomLaws G).

Lemma choice_in {A} (seq : list A) g x g' :
  choice seq g = Ok (x, g') -> In x seq.
Proof.
  unfold choice. destruct seq as [| a l]; [discriminate|].
  destruct (randbelow (Z.of_nat (List.length (a :: l))) g) as [i g1].
  destruct (nth_error (a :: l) (Z.to_nat i)) as [y|] eqn:E; [|discriminate].
  intros Ey. injection Ey as <- <-. eapply nth_error_In; eauto.
Qed.

Lemma next_trade_fields s g now trade s' g' :
  next_trade s g now = Ok (trade, s', g') ->
  Trade.symbol trade = symbol s /\
  Trade.exchange_time trade = now /\
  Trade.trade_id trade = trade_id s + 1 /\
  trade_id s' = trade_id s + 1 /\
  symbol s' = symbol s /\ volatility s' = volatility s.
Proof.
  unfold next_trade.
  destruct (gauss zero (volatility s) g) as [change g1].
  destruct (lognormvariate zero one g1) as [draw g2].
  destruct (choice ["buy"%string; "sell"%string] g2) as [[side g3] | e];
    cbn [bind]; [|discriminate].
  destruct (py_round (py_max (mul (price s) (add one change)) price_floor) 8);
    cbn [bind]; [|discriminate].
  destruct (py_round (mul draw volume_scale) 8); cbn [bind]; [|discriminate].
  intros E. injection E as <- <- <-. repeat split.
Qed.

Lemma generate_trades_inv symbols sims g now trade sims' g' :
  generate_trades symbols sims g now = Ok (trade, sims', g') ->
  exists sym sim sim' g1,
    In sym symbols /\ dict_get sims sym = Some sim /\
    next_trade sim g1 now = Ok (trade, sim', g') /\
    sims' = dict_set sims sym sim'.
Proof.
  unfold generate_trades.
  destruct (choice symbols g) as [[sym g1] | e] eqn:Ec; cbn [bind]; [|discriminate].
  destruct (dict_get sims sym) as [sim|] eqn:Es; [|discriminate].
  destruct (next_trade sim g1 now) as [[[t sim'] g2] | e] eqn:En;
    cbn [bind]; [|discriminate].
  intros E. injection E as <- <- <-.
  exists sym, sim, sim', g1. repeat split; trivial.
  now apply (choice_in symbols g sym g1).
Qed.

(** X8: one value of the generator comes from the simulator of one of the
    configured symbols: the record carries that simulator's symbol and its
    counter plus one, that simulator's counter is advanced by one, every
    other simulator is left as it was, and the dictionary keeps its keys in
    their order. *)
Theorem generate_trades_touches_one symbols sims g now :
  symbols <> [] ->
  (forall k, In k symbols -> dict_get sims k <> None) ->
  wf_simulators sims ->
  exists trade sims' g' sym sim sim',
    generate_trades symbols sims g now = Ok (trade, sims', g') /\
    In sym symbols /\
    dict_get sims sym = Some sim /\ dict_get sims' sym = Some sim' /\
    Trade.symbol trade = symbol sim /\
    Trade.trade_id trade = trade_id sim + 1 /\
    trade_id sim' = trade_id sim + 1 /\
    (forall k, k <> sym -> dict_get sims' k = dict_get sims k) /\
    dict_keys sims' = dict_keys sims.
Proof.
  intros Hne Hkeys Hwf.
  destruct (generate_trades_ok laws symbols sims g now Hne Hkeys Hwf)
    as (trade & sims' & g' & E & _).
  destruct (generate_trades_inv _ _ _ _ _ _ _ E)
    as (sym & sim & sim' & g1 & Hin & Hs & En & ->).
  destruct (next_trade_fields _ _ _ _ _ _ En) as (Hsy & _ & Hid & Hid' & _).
  exists trade, (dict_set sims sym sim'), g', sym, sim, sim'.
  split; [exact E|]. split; [exact Hin|]. split; [exact Hs|].
  split; [apply dict_get_set_same|]. split; [exact Hsy|].
  split; [exact Hid|]. split; [exact Hid'|]. split.
  - intros k Hk. now apply dict_get_set_other.
  - apply dict_keys_set_present. congruence.
Qed.

Lemma generate_n_ext n : forall symbols sims g c1 c2,
  (forall j, c1 j = c2 j) ->
  generate_n n symbols sims g c1 = generate_n n symbols sims g c2.
Proof.
  induction n as [| n IH]; intros symbols sims g c1 c2 Hc; [reflexivity|].
  cbn [generate_n]. rewrite (Hc O).
  destruct (generate_trades symbols sims g (c2 O)) as [[[t sims1] g1] | e];
    cbn [bind]; trivial.
  rewrite (IH symbols sims1 g1 (fun i => c1 (S i)) (fun i => c2 (S i)));
    trivial.
Qed.

Lemma ids_for_cons_same sym t ts :
  Trade.symbol t = sym ->
  ids_for sym (t :: ts) = Trade.trade_id t :: ids_for sym ts.
Proof.
  intros <-. unfold ids_for. cbn [filter]. now rewrite String.eqb_refl.
Qed.

Lemma ids_for_cons_other sym t ts :
  Trade.symbol t <> sym -> ids_for sym (t :: ts) = ids_for sym ts.
Proof.
  intros Hne. unfold ids_for. cbn [filter].
  destruct (String.eqb_spec (Trade.symbol t) sym); [contradiction | reflexivity].
Qed.

(** The first [n] values of the generator exist, and the records of each
    symbol among them continue that symbol's counter without a gap. *)
Lemma generate_n_spec n : forall symbols sims g clock,
  symbols <> [] ->
  (forall k, In k symbols -> dict_get sims k <> None) ->
  wf_simulators sims ->
  keyed_by_symbol sims ->
  exists trades sims' g',
    generate_n n symbols sims g clock = Ok (trades, sims', g') /\
    List.length trades = n /\
    Forall (fun t => In (Trade.symbol t) symbols) trades /\
    forall k v, dict_get sims k = Some v ->
      exists v',
        dict_get sims' k = Some v' /\
        ids_for k trades
          = map (fun i => trade_id v + Z.of_nat i)
                (seq 1 (List.length (ids_for k trades))) /\
        trade_id v' = trade_id v + Z.of_nat (List.length (ids_for k trades)).
Proof.
  induction n as [| n IH]; intros symbols sims g clock Hne Hkeys Hwf Hkeyed.
  - exists [], sims, g. cbn [generate_n List.length].
    split; [reflexivity|]. split; [reflexivity|]. split; [constructor|].
    intros k v Hk. exists v. cbn. split; [exact Hk|]. split; [reflexivity | lia].
  - destruct (generate_trades_ok laws symbols sims g (clock O) Hne Hkeys Hwf)
      as (trade & sims1 & g1 & E & Hkeys1 & Hwf1).
    destruct (generate_trades_inv _ _ _ _ _ _ _ E)
      as (sym & sim & sim1 & g0 & Hin & Hs & En & ->).
    destruct (next_trade_fields _ _ _ _ _ _ En)
      as (Hsy & _ & Hid & Hid1 & Hsy1 & _).
    pose proof (Hkeyed sym sim Hs) as Hsimkey.
    assert (Hkeyed1 : keyed_by_symbol (dict_set sims sym sim1)).
    { intros k v. destruct (String.eqb_spec k sym) as [-> | Hd].
      - rewrite dict_get_set_same. intros Ev. injection Ev as <-. congruence.
      - rewrite dict_get_set_other by trivial. apply Hkeyed. }
    destruct (IH symbols (dict_set sims sym sim1) g1 (fun i => clock (S i))
                Hne Hkeys1 Hwf1 Hkeyed1)
      as (trades & sims' & g' & E2 & Hlen & Hsyms & Hids).
    cbn [generate_n]. rewrite E. cbn [bind]. rewrite E2. cbn [bind].
    exists (trade :: trades), sims', g'.
    split; [reflexivity|]. split; [cbn; now rewrite Hlen|]. split.
    { constructor; [|exact Hsyms]. rewrite Hsy, Hsimkey. exact Hin. }
    intros k v Hk.
    destruct (String.eqb_spec k sym) as [-> | Hd].
    + rewrite Hs in Hk. injection Hk as <-.
      destruct (Hids sym sim1 (dict_get_set_same sims sym sim1))
        as (v' & Hv' & Hl & Hid').
      exists v'. split; [exact Hv'|].
      rewrite ids_for_cons_same by congruence.
      cbn [List.length seq map]. split.
      * rewrite Hid. f_equal. rewrite Hl at 1.
        rewrite <- (seq_shift _ 1), map_map.
        apply map_ext. intros i. lia.
      * lia.
    + destruct (Hids k v) as (v' & Hv' & Hl & Hid').
      { rewrite dict_get_set_other by trivial. exact Hk. }
      exists v'. split; [exact Hv'|].
      rewrite ids_for_cons_other by congruence. split; trivial.
Qed.

(** X9: however the generator interleaves the symbols, the trade ids of
    each symbol are consecutive: among the first [n] values, the records of a
    symbol carry that simulator's counter plus 1, 2, 3, ... in this order,
    and the simulator ends with the last of them. *)
Theorem generated_ids_consecutive n symbols sims g clock :
  symbols <> [] ->
  (forall k, In k symbols -> dict_get sims k <> None) ->
  wf_simulators sims ->
  keyed_by_symbol sims ->
  exists trades sims' g',
    generate_n n symbols sims g clock = Ok (trades, sims', g') /\
    List.length trades = n /\
    forall k v, dict_get sims k = Some v ->
      exists v',
        dict_get sims' k = Some v' /\
        ids_for k trades
          = map (fun i => trade_id v + Z.of_nat i)
                (seq 1 (List.length (ids_for k trades))) /\
        trade_id v' = trade_id v + Z.of_nat (List.length (ids_for k trades)).
Proof.
  intros Hne Hkeys Hwf Hkeyed.
  destruct (generate_n_spec n symbols sims g clock Hne Hkeys Hwf Hkeyed)
    as (trades & sims' & g' & E & Hlen & _ & Hids).
  exists trades, sims', g'. repeat split; trivial.
Qed.

(** What [main] hands to its loops. *)
Lemma created_ready symbols g :
  symbols <> [] ->
  dict_keys (fst (create_simulators symbols g)) <> [] /\
  (forall k, In k (dict_keys (fst (create_simulators symbols g))) ->
             dict_get (fst (create_simulators symbols g)) k <> None) /\
  wf_simulators (fst (create_simulators symbols g)) /\
  keyed_by_symbol (fst (create_simulators symbols g)).
Proof.
  intros Hne. split; [|split; [|split]].
  - destruct symbols as [| k0 rest]; [congruence|].
    pose proof (create_loop_has (k0 :: rest) [] g k0
                  (or_introl (or_introl eq_refl))) as Hk0.
    apply dict_keys_get in Hk0. intros Hnil.
    unfold create_simulators in Hnil. rewrite Hnil in Hk0. contradiction.
  - intros k. apply dict_keys_get.
  - apply (create_simulators_wf laws).
  - intros k v Hk.
    apply (create_loop_all (fun k s => symbol s = k) symbols)
      with (acc := []) (g := g); trivial.
    + intros s0 p g0. apply init_fields.
    + intros k' v' Hk'. discriminate.
Qed.

Lemma parsed_nonempty s : map strip (split ","%char s) <> [].
Proof.
  pose proof (split_nonempty ","%char s) as Hs.
  destruct (split ","%char s); [congruence | discriminate].
Qed.

End GeneratorFacts.

(** ** The loops of [main] *)

Lemma emitted_app a b : emitted (a ++ b) = emitted a ++ emitted b.
Proof. apply flat_map_app. Qed.

Lemma progress_lines_app a b :
  progress_lines (a ++ b) = progress_lines a ++ progress_lines b.
Proof. apply flat_map_app. Qed.

Lemma sleep_for_rate_inv r secs :
  sleep_for_rate r = Ok secs ->
  py_inverse r = Ok secs /\ time_sleep secs = Ok tt /\ is_zero r = false.
Proof.
  unfold sleep_for_rate, py_inverse.
  destruct (is_zero r); [discriminate|].
  destruct (time_sleep (div one r)) as [[] | e] eqn:E; [|discriminate].
  intros Es. injection Es as <-. auto.
Qed.

Lemma hundred_step a :
  0 <= a ->
  ((a + 1) mod 100 = 0 ->
     (a + 1) / 100 = a / 100 + 1 /\ a + 1 = 100 * (a / 100 + 1)) /\
  ((a + 1) mod 100 <> 0 -> (a + 1) / 100 = a / 100).
Proof. intros Ha. Z.div_mod_to_equations. lia. Qed.

Section Loops.
Context {G : Type} `{RandomSource G}.

Lemma main_dry_run fuel args link clock g :
  dry_run args = true ->
  main fuel args link clock g
  = dry_run_loop fuel args
      (dict_keys (fst (create_simulators
                         (map strip (split ","%char (symbols args))) g)))
      clock O
      (fst (create_simulators (map strip (split ","%char (symbols args))) g))
      (snd (create_simulators (map strip (split ","%char (symbols args))) g))
      (Stdout DryRunNotice :: banner args).
Proof.
  intros Hd. unfold main. rewrite Hd.
  now destruct (create_simulators (map strip (split ","%char (symbols args))) g).
Qed.

Lemma main_connected fuel args clock g interval :
  dry_run args = false ->
  py_inverse (rate args) = Ok interval ->
  main fuel args Connected clock g
  = send_loop fuel args
      (dict_keys (fst (create_simulators
                         (map strip (split ","%char (symbols args))) g)))
      clock interval O
      (fst (create_simulators (map strip (split ","%char (symbols args))) g))
      (snd (create_simulators (map strip (split ","%char (symbols args))) g))
      (Stdout (ConnectedTo (broker args)) :: KafkaConnect (broker args)
       :: banner args).
Proof.
  intros Hd Hi. unfold main. rewrite Hd, Hi.
  now destruct (create_simulators (map strip (split ","%char (symbols args))) g).
Qed.

(** The dry-run loop adds no call of the queue client to the trace. *)
Lemma dry_run_loop_no_kafka args symbols clock : forall fuel i sims g tr,
  forallb (fun e => negb (is_kafka e))
          (trace (dry_run_loop fuel args symbols clock i sims g tr))
  = forallb (fun e => negb (is_kafka e)) (rev tr).
Proof.
  induction fuel as [| fuel IH]; intros i sims g tr; [reflexivity|].
  cbn [dry_run_loop].
  destruct (generate_trades symbols sims g (clock i)) as [[[t sims1] g1] | e];
    [|reflexivity].
  destruct (sleep_for_rate (rate args)) as [secs | e].
  - destruct (negb (count args =? 0) && (Z.of_nat i >=? count args - 1)).
    + cbn [trace]. rewrite !no_kafka_snoc. cbn. now rewrite !andb_true_r.
    + rewrite IH, !no_kafka_snoc. cbn. now rewrite !andb_true_r.
  - cbn [trace]. rewrite no_kafka_snoc. cbn. now rewrite andb_true_r.
Qed.

(** The shape of every trace of the sending loop: what was there, then sends
    to the topic, progress lines and sleeps, then the [finally] clause unless
    the loop is still running. *)
Lemma send_loop_trace args symbols clock interval : forall fuel sent sims g tr,
  exists body,
    trace (send_loop fuel args symbols clock interval sent sims g tr)
    = rev tr ++ body
      ++ match final (send_loop fuel args symbols clock interval sent sims g tr)
         with
         | RUNNING => []
         | _ => shutdown
         end /\
    forallb (loop_event (topic args)) body = true.
Proof.
  induction fuel as [| fuel IH]; intros sent sims g tr.
  - exists []. cbn. now rewrite app_nil_r.
  - cbn [send_loop].
    destruct (generate_trades symbols sims g (clock sent))
      as [[[t sims1] g1] | e].
    2:{ exists []. cbn. split; reflexivity. }
    set (tr2 := if Z.of_nat (S sent) mod 100 =? 0
                then Stdout (Progress (Z.of_nat (S sent)) t)
                     :: KafkaSend (topic args) t :: tr
                else KafkaSend (topic args) t :: tr).
    assert (Htr2 : exists b2, rev tr2 = rev tr ++ b2 /\
                              forallb (loop_event (topic args)) b2 = true).
    { unfold tr2. destruct (Z.of_nat (S sent) mod 100 =? 0).
      - exists [KafkaSend (topic args) t;
                Stdout (Progress (Z.of_nat (S sent)) t)].
        cbn [rev]. rewrite <- app_assoc. split; [reflexivity|].
        cbn. now rewrite String.eqb_refl.
      - exists [KafkaSend (topic args) t]. split; [reflexivity|].
        cbn. now rewrite String.eqb_refl. }
    destruct Htr2 as (b2 & Hb2 & Hok2).
    destruct (time_sleep interval) as [[] | e].
    2:{ exists b2. cbn [trace final]. rewrite Hb2, <- app_assoc.
        split; [reflexivity | exact Hok2]. }
    destruct (negb (count args =? 0) && (Z.of_nat (S sent) >=? count args)).
    + exists (b2 ++ [Sleep interval]). cbn [trace final rev].
      rewrite Hb2, <- !app_assoc. split; [reflexivity|].
      rewrite forallb_app, Hok2. reflexivity.
    + destruct (IH (S sent) sims1 g1 (Sleep interval :: tr2))
        as (body & Hbody & Hok).
      exists (b2 ++ Sleep interval :: body). rewrite Hbody.
      cbn [rev]. rewrite Hb2, <- !app_assoc. split; [reflexivity|].
      rewrite forallb_app, Hok2. cbn. exact Hok.
Qed.

(** With a limit [count > 0] and a delay that [time.sleep] accepts, the
    sending loop sends the next values of the generator, as many as bring
    the total to [count], prints a progress line at every hundredth send and
    stops. *)
Lemma send_loop_run args symbols clock interval :
  time_sleep interval = Ok tt ->
  0 < count args ->
  forall fuel sent sims g tr trades sims' g',
    Z.of_nat sent < count args ->
    count args - Z.of_nat sent <= Z.of_nat fuel ->
    generate_n (Z.to_nat (count args - Z.of_nat sent)) symbols sims g
               (fun j => clock (sent + j)%nat) = Ok (trades, sims', g') ->
    final (send_loop fuel args symbols clock interval sent sims g tr) = STOPPED /\
    emitted (trace (send_loop fuel args symbols clock interval sent sims g tr))
      = emitted (rev tr) ++ trades /\
    progress_lines
      (trace (send_loop fuel args symbols clock interval sent sims g tr))
      = progress_lines (rev tr)
        ++ map (fun j => 100 * Z.of_nat j)
               (seq (S (Z.to_nat (Z.of_nat sent / 100)))
                    (Z.to_nat (count args / 100 - Z.of_nat sent / 100))) /\
    simulators_at_exit
      (send_loop fuel args symbols clock interval sent sims g tr) = sims' /\
    random_at_exit
      (send_loop fuel args symbols clock interval sent sims g tr) = g'.
Proof.
  intros Hsleep Hcount.
  induction fuel as [| fuel IH];
    intros sent sims g tr trades sims' g' Hsent Hfuel Hgen; [lia|].
  replace (Z.to_nat (count args - Z.of_nat sent))
    with (S (Z.to_nat (count args - Z.of_nat (S sent)))) in Hgen by lia.
  cbn [generate_n] in Hgen. rewrite Nat.add_0_r in Hgen.
  cbn [send_loop].
  destruct (generate_trades symbols sims g (clock sent))
    as [[[t sims1] g1] | e]; [|discriminate].
  cbn [bind] in Hgen.
  destruct (generate_n (Z.to_nat (count args - Z.of_nat (S sent))) symbols sims1
              g1 (fun i => clock (sent + S i)%nat))
    as [[[ts sims2] g2] | e] eqn:Egen; [|discriminate].
  cbn [bind] in Hgen. injection Hgen as <- <- <-.
  rewrite Hsleep.
  assert (Hnz : negb (count args =? 0) = true).
  { destruct (Z.eqb_spec (count args) 0); [lia | reflexivity]. }
  rewrite Hnz. cbn [andb].
  pose proof (hundred_step (Z.of_nat sent) ltac:(lia)) as [Hdiv0 Hdiv1].
  replace (Z.of_nat sent + 1) with (Z.of_nat (S sent)) in Hdiv0, Hdiv1 by lia.
  assert (Hq : 0 <= Z.of_nat sent / 100) by (apply Z.div_pos; lia).
  assert (Hmono : Z.of_nat (S sent) / 100 <= count args / 100)
    by (apply Z.div_le_mono; lia).
  set (f := fun j : nat => 100 * Z.of_nat j).
  (* the progress line of this send *)
  assert (Hprog :
    progress_lines
      (rev (if Z.of_nat (S sent) mod 100 =? 0
            then Stdout (Progress (Z.of_nat (S sent)) t)
                 :: KafkaSend (topic args) t :: tr
            else KafkaSend (topic args) t :: tr))
    ++ map f (seq (S (Z.to_nat (Z.of_nat (S sent) / 100)))
                  (Z.to_nat (count args / 100 - Z.of_nat (S sent) / 100)))
    = progress_lines (rev tr)
      ++ map f (seq (S (Z.to_nat (Z.of_nat sent / 100)))
                    (Z.to_nat (count args / 100 - Z.of_nat sent / 100)))).
  { destruct (Z.eqb_spec (Z.of_nat (S sent) mod 100) 0) as [Hm | Hm].
    - destruct (Hdiv0 Hm) as [Hd1 Hd2].
      cbn [rev]. rewrite !progress_lines_app, <- !app_assoc. cbn [progress_lines flat_map app].
      f_equal.
      replace (Z.to_nat (count args / 100 - Z.of_nat sent / 100))
        with (S (Z.to_nat (count args / 100 - Z.of_nat (S sent) / 100))) by lia.
      cbn [seq map]. f_equal.
      + unfold f. lia.
      + now replace (Z.to_nat (Z.of_nat (S sent) / 100))
          with (S (Z.to_nat (Z.of_nat sent / 100))) by lia.
    - rewrite (Hdiv1 Hm). cbn [rev]. rewrite progress_lines_app. cbn.
      now rewrite app_nil_r. }
  assert (Hemit :
    emitted
      (rev (if Z.of_nat (S sent) mod 100 =? 0
            then Stdout (Progress (Z.of_nat (S sent)) t)
                 :: KafkaSend (topic args) t :: tr
            else KafkaSend (topic args) t :: tr))
    = emitted (rev tr) ++ [t]).
  { destruct (Z.of_nat (S sent) mod 100 =? 0); cbn [rev];
      rewrite !emitted_app; cbn; now rewrite ?app_nil_r. }
  destruct (Z.geb_spec (Z.of_nat (S sent)) (count args)) as [Hlast | Hmore].
  - assert (Hcnt : count args = Z.of_nat (S sent)) by lia.
    replace (Z.to_nat (count args - Z.of_nat (S sent))) with O in Egen by lia.
    cbn [generate_n] in Egen. injection Egen as <- <- <-.
    cbn [final trace simulators_at_exit random_at_exit].
    split; [reflexivity|]. split; [|split; [|split; reflexivity]].
    + cbn [rev]. rewrite !emitted_app, Hemit. cbn. now rewrite !app_nil_r.
    + cbn [rev]. rewrite !progress_lines_app. cbn. rewrite !app_nil_r.
      rewrite <- Hprog.
      replace (Z.to_nat (count args / 100 - Z.of_nat (S sent) / 100)) with O
        by (rewrite Hcnt; lia).
      cbn. now rewrite app_nil_r.
  - rewrite (generate_n_ext _ _ _ _ _ (fun j => clock (S sent + j)%nat)) in Egen
      by (intros j; f_equal; lia).
    destruct (IH (S sent) sims1 g1
                (Sleep interval
                 :: (if Z.of_nat (S sent) mod 100 =? 0
                     then Stdout (Progress (Z.of_nat (S sent)) t)
                          :: KafkaSend (topic args) t :: tr
                     else KafkaSend (topic args) t :: tr))
                ts sims2 g2 ltac:(lia) ltac:(lia) Egen)
      as (Hf & He & Hp & Hs & Hg).
    rewrite Hf, He, Hp, Hs, Hg.
    split; [reflexivity|]. split; [|split; [|split; reflexivity]].
    + cbn [rev]. rewrite emitted_app, Hemit. cbn.
      rewrite app_nil_r, <- app_assoc. reflexivity.
    + cbn [rev]. rewrite progress_lines_app. cbn. rewrite app_nil_r.
      exact Hprog.
Qed.


End Loops.

(** ** [main] in both modes *)

Lemma loop_body_facts tp body :
  forallb (loop_event tp) body = true ->
  sent_topics body = repeat tp (List.length (emitted body)) /\
  filter is_stdout_trade body = [] /\
  forallb (fun e => negb (is_shutdown e)) body = true.
Proof.
  induction body as [| ev body IH]; intros Hb; [now cbn|].
  cbn [forallb] in Hb. apply andb_prop in Hb as [Hev Hb].
  destruct (IH Hb) as (Ht & Hs & Hn).
  destruct ev as [m | t | secs | b | tp' t | |]; try discriminate Hev.
  - destruct m; try discriminate Hev. cbn. auto.
  - cbn. auto.
  - cbn in Hev. apply String.eqb_eq in Hev. subst tp'.
    split; [|split; [exact Hs | exact Hn]].
    change (tp :: sent_topics body
            = tp :: repeat tp (List.length (emitted body))).
    now rewrite Ht.
Qed.

Lemma sent_topics_app a b : sent_topics (a ++ b) = sent_topics a ++ sent_topics b.
Proof. apply flat_map_app. Qed.

Lemma banner_quiet args :
  emitted (rev (banner args)) = [] /\
  progress_lines (rev (banner args)) = [] /\
  sent_topics (rev (banner args)) = [] /\
  filter is_stdout_trade (rev (banner args)) = [] /\
  forallb (fun e => negb (is_kafka e)) (rev (banner args)) = true.
Proof. repeat split. Qed.

Section DriverModes.
Context {G : Type} `{RandomSource G} (laws : RandomLaws G).

(** Without a limit the count check never stops the sending loop. *)
Lemma send_loop_unbounded args symbols clock interval :
  symbols <> [] ->
  time_sleep interval = Ok tt ->
  count args = 0 ->
  forall fuel sent sims g tr,
    (forall k, In k symbols -> dict_get sims k <> None) ->
    wf_simulators sims ->
    final (send_loop fuel args symbols clock interval sent sims g tr) = RUNNING /\
    List.length
      (emitted (trace (send_loop fuel args symbols clock interval sent sims g tr)))
      = (List.length (emitted (rev tr)) + fuel)%nat.
Proof.
  intros Hne Hsleep Hcount.
  induction fuel as [| fuel IH]; intros sent sims g tr Hkeys Hwf.
  - cbn [send_loop final trace]. split; [reflexivity | now rewrite Nat.add_0_r].
  - cbn [send_loop].
    destruct (generate_trades_ok laws symbols sims g (clock sent) Hne Hkeys Hwf)
      as (trade & sims' & g' & E & Hkeys' & Hwf').
    rewrite E, Hsleep, Hcount. cbn [Z.eqb negb andb].
    destruct (IH (S sent) sims' g'
                (Sleep interval
                 :: (if Z.of_nat (S sent) mod 100 =? 0
                     then Stdout (Progress (Z.of_nat (S sent)) trade)
                          :: KafkaSend (topic args) trade :: tr
                     else KafkaSend (topic args) trade :: tr))
                Hkeys' Hwf') as (Hf & Hlen).
    rewrite Hf, Hlen. split; [reflexivity|].
    cbn [rev]. rewrite emitted_app.
    destruct (Z.of_nat (S sent) mod 100 =? 0); cbn [rev];
      rewrite !emitted_app, !length_app; cbn; lia.
Qed.

(** X10: a dry run never calls the queue client, whatever the rate, the limit,
    the symbols and the random source are, and however the run ends. *)
Theorem dry_run_never_calls_queue fuel args link clock g :
  dry_run args = true ->
  forallb (fun e => negb (is_kafka e)) (trace (main fuel args link clock g))
  = true.
Proof.
  intros Hd. rewrite (main_dry_run _ _ _ _ _ Hd), dry_run_loop_no_kafka.
  reflexivity.
Qed.

(** X11: a zero rate fails with ZeroDivisionError in both modes.  A dry run
    prints one record first and fails in [time.sleep(1 / args.rate)].  A
    connected run fails at [interval = 1 / args.rate], which is outside the
    [try]: no record is generated or sent, and the producer that was just
    connected is neither flushed nor closed. *)
Theorem zero_rate_crashes fuel args link clock g :
  is_zero (rate args) = true ->
  (dry_run args = true ->
   final (main (S fuel) args link clock g) = CRASHED ZeroDivisionError /\
   List.length (emitted (trace (main (S fuel) args link clock g))) = 1%nat) /\
  (dry_run args = false ->
   final (main fuel args Connected clock g) = CRASHED ZeroDivisionError /\
   trace (main fuel args Connected clock g)
     = rev (banner args)
       ++ [KafkaConnect (broker args); Stdout (ConnectedTo (broker args))] /\
   simulators_at_exit (main fuel args Connected clock g)
     = fst (create_simulators (map strip (split ","%char (symbols args))) g) /\
   random_at_exit (main fuel args Connected clock g)
     = snd (create_simulators (map strip (split ","%char (symbols args))) g)).
Proof.
  intros Hz. split; intros Hd.
  - rewrite (main_dry_run _ _ _ _ _ Hd).
    destruct (created_ready laws (map strip (split ","%char (symbols args))) g
                (parsed_nonempty _)) as (Hne & Hkeys & Hwf & _).
    cbn [dry_run_loop].
    destruct (generate_trades_ok laws _ _
                (snd (create_simulators
                        (map strip (split ","%char (symbols args))) g))
                (clock O) Hne Hkeys Hwf)
      as (trade & sims' & g' & E & _).
    rewrite E. unfold sleep_for_rate, py_inverse. rewrite Hz.
    cbn [final trace]. split; [reflexivity|].
    cbn [rev]. rewrite !emitted_app. reflexivity.
  - unfold main, py_inverse. rewrite Hd, Hz.
    destruct (create_simulators (map strip (split ","%char (symbols args))) g).
    cbn. auto.
Qed.

(** X12: a negative limit stops either loop after the first record: the
    limit is true as a condition and every count reaches it. *)
Theorem negative_count_one_record fuel args link clock g secs :
  count args < 0 ->
  sleep_for_rate (rate args) = Ok secs ->
  dry_run args = true \/ link = Connected ->
  final (main (S fuel) args link clock g) = STOPPED /\
  List.length (emitted (trace (main (S fuel) args link clock g))) = 1%nat.
Proof.
  intros Hc Hpace Hmode.
  destruct (created_ready laws (map strip (split ","%char (symbols args))) g
              (parsed_nonempty _)) as (Hne & Hkeys & Hwf & _).
  destruct (generate_trades_ok laws _ _
              (snd (create_simulators
                      (map strip (split ","%char (symbols args))) g))
              (clock O) Hne Hkeys Hwf)
    as (trade & sims' & g' & E & _).
  assert (Hnz : negb (count args =? 0) = true).
  { destruct (Z.eqb_spec (count args) 0); [lia | reflexivity]. }
  destruct (dry_run args) eqn:Hd.
  - rewrite (main_dry_run _ _ _ _ _ Hd). cbn [dry_run_loop].
    rewrite E, Hpace, Hnz.
    replace (Z.of_nat 0 >=? count args - 1) with true
      by (symmetry; apply Z.geb_le; lia).
    cbn [andb final trace]. split; [reflexivity|].
    cbn [rev]. rewrite !emitted_app. reflexivity.
  - destruct Hmode as [Hm | ->]; [discriminate|].
    destruct (sleep_for_rate_inv _ _ Hpace) as (Hinv & Hsleep & _).
    rewrite (main_connected _ _ _ _ _ Hd Hinv). cbn [send_loop].
    rewrite E, Hsleep, Hnz.
    replace (Z.of_nat 1 >=? count args) with true
      by (symmetry; apply Z.geb_le; lia).
    cbn [andb final trace]. split; [reflexivity|].
    change (Z.of_nat 1 mod 100 =? 0) with false. cbn iota.
    cbn [rev]. rewrite !emitted_app. reflexivity.
Qed.

(** X13: connected, at a rate for which the pacing sleep succeeds, a limit
    [count > 0] makes [main] send exactly [count] records, all of them to
    the configured topic, print none of them as a dry-run line, and stop;
    with [count = 0] it is still running after any number of iterations, one
    send each. *)
Theorem send_count args clock g secs :
  dry_run args = false ->
  sleep_for_rate (rate args) = Ok secs ->
  (0 < count args ->
   forall fuel, count args <= Z.of_nat fuel ->
     final (main fuel args Connected clock g) = STOPPED /\
     sent_topics (trace (main fuel args Connected clock g))
       = repeat (topic args) (Z.to_nat (count args)) /\
     filter is_stdout_trade (trace (main fuel args Connected clock g)) = []) /\
  (count args = 0 ->
   forall fuel,
     final (main fuel args Connected clock g) = RUNNING /\
     sent_topics (trace (main fuel args Connected clock g))
       = repeat (topic args) fuel).
Proof.
  intros Hd Hpace.
  destruct (sleep_for_rate_inv _ _ Hpace) as (Hinv & Hsleep & _).
  destruct (created_ready laws (map strip (split ","%char (symbols args))) g
              (parsed_nonempty _)) as (Hne & Hkeys & Hwf & Hkeyed).
  split.
  - intros Hcount fuel Hfuel.
    destruct (generate_n_spec laws (Z.to_nat (count args)) _ _
                (snd (create_simulators
                        (map strip (split ","%char (symbols args))) g))
                clock Hne Hkeys Hwf Hkeyed)
      as (trades & sims' & g' & Egen & Hlen & _).
    rewrite (main_connected _ _ _ _ _ Hd Hinv).
    match goal with
    | |- context [send_loop fuel args ?sy clock secs O ?si ?r ?tr] =>
        destruct (send_loop_run args sy clock secs Hsleep Hcount fuel O si r tr
                    trades sims' g' ltac:(cbn; lia) ltac:(cbn; lia))
          as (Hf & He & _);
        [ cbn [Z.of_nat]; rewrite Z.sub_0_r; exact Egen |];
        destruct (send_loop_trace args sy clock secs fuel O si r tr)
          as (body & Htr & Hbody)
    end.
    rewrite Hf in Htr. rewrite Htr in He. rewrite Htr, Hf.
    destruct (loop_body_facts _ _ Hbody) as (Ht & Hs & _).
    rewrite !emitted_app in He. cbn in He. rewrite app_nil_r in He.
    split; [reflexivity|].
    rewrite !sent_topics_app, !filter_app, Ht, Hs, He, Hlen.
    split; [cbn; now rewrite app_nil_r | reflexivity].
  - intros Hcount fuel.
    rewrite (main_connected _ _ _ _ _ Hd Hinv).
    match goal with
    | |- context [send_loop fuel args ?sy clock secs O ?si ?r ?tr] =>
        destruct (send_loop_unbounded args sy clock secs Hne Hsleep Hcount
                    fuel O si r tr Hkeys Hwf) as (Hf & Hlen);
        destruct (send_loop_trace args sy clock secs fuel O si r tr)
          as (body & Htr & Hbody)
    end.
    rewrite Hf in Htr. rewrite Htr in Hlen. rewrite Htr, Hf.
    destruct (loop_body_facts _ _ Hbody) as (Ht & _).
    rewrite !emitted_app in Hlen. cbn in Hlen. rewrite app_nil_r in Hlen.
    split; [reflexivity|].
    rewrite !sent_topics_app, Ht, Hlen. cbn. now rewrite app_nil_r.
Qed.

(** X14: in a run that sends [count > 0] records the progress lines are the
    ones for 100, 200, ... up to the last multiple of 100 that is at most
    [count], in this order. *)
Theorem progress_every_hundred fuel args clock g secs :
  dry_run args = false ->
  sleep_for_rate (rate args) = Ok secs ->
  0 < count args ->
  count args <= Z.of_nat fuel ->
  progress_lines (trace (main fuel args Connected clock g))
  = map (fun j => 100 * Z.of_nat j) (seq 1 (Z.to_nat (count args / 100))).
Proof.
  intros Hd Hpace Hcount Hfuel.
  destruct (sleep_for_rate_inv _ _ Hpace) as (Hinv & Hsleep & _).
  destruct (created_ready laws (map strip (split ","%char (symbols args))) g
              (parsed_nonempty _)) as (Hne & Hkeys & Hwf & Hkeyed).
  destruct (generate_n_spec laws (Z.to_nat (count args)) _ _
              (snd (create_simulators
                      (map strip (split ","%char (symbols args))) g))
              clock Hne Hkeys Hwf Hkeyed)
    as (trades & sims' & g' & Egen & _).
  rewrite (main_connected _ _ _ _ _ Hd Hinv).
  match goal with
  | |- context [send_loop fuel args ?sy clock secs O ?si ?r ?tr] =>
      destruct (send_loop_run args sy clock secs Hsleep Hcount fuel O si r tr
                  trades sims' g' ltac:(cbn; lia) ltac:(cbn; lia))
        as (_ & _ & Hp & _);
      [ cbn [Z.of_nat]; rewrite Z.sub_0_r; exact Egen |]
  end.
  rewrite Hp. cbn [Z.of_nat]. rewrite Z.sub_0_r. reflexivity.
Qed.


End DriverModes.

Section Finally.
Context {G : Type} `{RandomSource G}.

(** The shape of every trace of the guarded loop: what was there, then sends
    to the topic, progress lines and sleeps, then the way out; the count
    that an interrupt reports is the number of sends, or one less when the
    interrupt came between a send and the increment. *)
Lemma guarded_send_loop_shape args symbols clock interval env :
  forall fuel sent sims g tr,
  exists body,
    snd (guarded_send_loop fuel args symbols clock interval env sent sims g tr)
    = rev tr ++ body
      ++ closing (fst (guarded_send_loop fuel args symbols clock interval env
                         sent sims g tr)) /\
    forallb (loop_event (topic args)) body = true /\
    forall n,
      fst (guarded_send_loop fuel args symbols clock interval env sent sims g tr)
        = Interrupted n ->
      (sent + List.length (sent_topics body) = n \/
       sent + List.length (sent_topics body) = S n)%nat.
Proof.
  induction fuel as [| fuel IH]; intros sent sims g tr.
  { exists []. cbn. rewrite app_nil_r. repeat split. discriminate. }
  cbn [guarded_send_loop].
  assert (Hleave : forall en new,
            forallb (loop_event (topic args)) new = true ->
            (forall n, en = Interrupted n ->
               (sent + List.length (sent_topics new) = n \/
                sent + List.length (sent_topics new) = S n)%nat) ->
            exists body,
              snd (en, rev (rev new ++ tr) ++ closing en)
              = rev tr ++ body ++ closing (fst (en, rev (rev new ++ tr)
                                                      ++ closing en)) /\
              forallb (loop_event (topic args)) body = true /\
              forall n, fst (en, rev (rev new ++ tr) ++ closing en)
                        = Interrupted n ->
                (sent + List.length (sent_topics body) = n \/
                 sent + List.length (sent_topics body) = S n)%nat).
  { intros en new Hnew Hn. exists new. cbn [fst snd].
    rewrite rev_app_distr, rev_involutive, <- app_assoc. auto. }
  destruct (strikes (env sent) InGenerator) eqn:S1.
  { apply (Hleave (Interrupted sent) []); [reflexivity|].
    intros n E. injection E as <-. cbn. lia. }
  destruct (generate_trades symbols sims g (clock sent))
    as [[[t sims1] g1] | e].
  2:{ apply (Hleave (Raised e) []); [reflexivity | discriminate]. }
  assert (Hs1 : forallb (loop_event (topic args)) [KafkaSend (topic args) t]
                = true) by (cbn; now rewrite String.eqb_refl).
  destruct (env sent) as [| | p] eqn:Ed.
  2:{ apply (Hleave SendFailed []); [reflexivity | discriminate]. }
  - (* no outside event *)
    cbn [strikes].
    destruct (time_sleep interval) as [[] | e].
    2:{ destruct (Z.of_nat (S sent) mod 100 =? 0).
        - apply (Hleave (Raised e)
                   [KafkaSend (topic args) t;
                    Stdout (Progress (Z.of_nat (S sent)) t)]);
            [cbn; now rewrite String.eqb_refl | discriminate].
        - apply (Hleave (Raised e) [KafkaSend (topic args) t]);
            [exact Hs1 | discriminate]. }
    destruct (negb (count args =? 0) && (Z.of_nat (S sent) >=? count args)).
    + destruct (Z.of_nat (S sent) mod 100 =? 0).
      * apply (Hleave LimitReached
                 [KafkaSend (topic args) t;
                  Stdout (Progress (Z.of_nat (S sent)) t); Sleep interval]);
          [cbn; now rewrite String.eqb_refl | discriminate].
      * apply (Hleave LimitReached
                 [KafkaSend (topic args) t; Sleep interval]);
          [cbn; now rewrite String.eqb_refl | discriminate].
    + match goal with
      | |- context [guarded_send_loop fuel args symbols clock interval env
                      (S sent) sims1 g1 ?tr3] =>
          destruct (IH (S sent) sims1 g1 tr3) as (body & Htr & Hbody & Hn)
      end.
      destruct (Z.of_nat (S sent) mod 100 =? 0).
      * exists ([KafkaSend (topic args) t;
                 Stdout (Progress (Z.of_nat (S sent)) t); Sleep interval]
                ++ body).
        rewrite Htr. cbn [rev]. rewrite <- !app_assoc.
        split; [reflexivity|]. split.
        -- rewrite forallb_app, Hbody. cbn. now rewrite String.eqb_refl.
        -- intros n E. specialize (Hn n E).
           rewrite sent_topics_app, length_app. cbn. lia.
      * exists ([KafkaSend (topic args) t; Sleep interval] ++ body).
        rewrite Htr. cbn [rev]. rewrite <- !app_assoc.
        split; [reflexivity|]. split.
        -- rewrite forallb_app, Hbody. cbn. now rewrite String.eqb_refl.
        -- intros n E. specialize (Hn n E).
           rewrite sent_topics_app, length_app. cbn. lia.
  - (* an interrupt *)
    cbn [strikes] in S1 |- *.
    destruct p; cbn [phase_eqb] in S1 |- *; try discriminate S1.
    + apply (Hleave (Interrupted sent) [KafkaSend (topic args) t]);
        [exact Hs1|]. intros n E. injection E as <-. cbn. lia.
    + apply (Hleave (Interrupted (S sent)) [KafkaSend (topic args) t]);
        [exact Hs1|]. intros n E. injection E as <-. cbn. lia.
    + destruct (time_sleep interval) as [[] | e];
        destruct (Z.of_nat (S sent) mod 100 =? 0).
      * apply (Hleave (Interrupted (S sent))
                 [KafkaSend (topic args) t;
                  Stdout (Progress (Z.of_nat (S sent)) t)]);
          [cbn; now rewrite String.eqb_refl|].
        intros n E. injection E as <-. cbn. lia.
      * apply (Hleave (Interrupted (S sent)) [KafkaSend (topic args) t]);
          [exact Hs1|]. intros n E. injection E as <-. cbn. lia.
      * apply (Hleave (Raised e)
                 [KafkaSend (topic args) t;
                  Stdout (Progress (Z.of_nat (S sent)) t)]);
          [cbn; now rewrite String.eqb_refl | discriminate].
      * apply (Hleave (Raised e) [KafkaSend (topic args) t]);
          [exact Hs1 | discriminate].
    + destruct (time_sleep interval) as [[] | e];
        destruct (Z.of_nat (S sent) mod 100 =? 0).
      * apply (Hleave (Interrupted (S sent))
                 [KafkaSend (topic args) t;
                  Stdout (Progress (Z.of_nat (S sent)) t); Sleep interval]);
          [cbn; now rewrite String.eqb_refl|].
        intros n E. injection E as <-. cbn. lia.
      * apply (Hleave (Interrupted (S sent))
                 [KafkaSend (topic args) t; Sleep interval]);
          [cbn; now rewrite String.eqb_refl|].
        intros n E. injection E as <-. cbn. lia.
      * apply (Hleave (Raised e)
                 [KafkaSend (topic args) t;
                  Stdout (Progress (Z.of_nat (S sent)) t)]);
          [cbn; now rewrite String.eqb_refl | discriminate].
      * apply (Hleave (Raised e) [KafkaSend (topic args) t]);
          [exact Hs1 | discriminate].
Qed.

(** Without outside events the guarded loop is the sending loop. *)
Lemma guarded_send_loop_quiet args symbols clock interval env :
  (forall i, env i = Quiet) ->
  forall fuel sent sims g tr,
    guarded_send_loop fuel args symbols clock interval env sent sims g tr
    = (ending_of (final (send_loop fuel args symbols clock interval sent sims
                           g tr)),
       trace (send_loop fuel args symbols clock interval sent sims g tr)).
Proof.
  intros Hq. induction fuel as [| fuel IH]; intros sent sims g tr;
    [reflexivity|].
  cbn [guarded_send_loop send_loop]. rewrite Hq. cbn [strikes].
  destruct (generate_trades symbols sims g (clock sent))
    as [[[t sims1] g1] | e]; [|reflexivity].
  destruct (time_sleep interval) as [[] | e]; [|reflexivity].
  destruct (negb (count args =? 0) && (Z.of_nat (S sent) >=? count args));
    [reflexivity | apply IH].
Qed.

(** X16: once connected with a non-zero rate, however the [try] statement is
    left, the [finally] clause runs once and last: the trace is the start-up
    lines, the connection, then only sends to the configured topic, progress
    lines and sleeps, and, as soon as the loop has ended, by the limit, by an
    exception of a send or of the pacing sleep, or by an interrupt from the
    keyboard, flush, close and the closing line, preceded after an interrupt
    by the line of the [except] branch, whose count is the number of sends
    or one less.  Without outside events this is the run of [main]. *)
Theorem finally_runs_last fuel args clock env g :
  is_zero (rate args) = false ->
  (exists body,
     snd (connected_main fuel args clock env g)
     = rev (banner args)
       ++ [KafkaConnect (broker args); Stdout (ConnectedTo (broker args))]
       ++ body
       ++ closing (fst (connected_main fuel args clock env g)) /\
     forallb (loop_event (topic args)) body = true /\
     forallb (fun e => negb (is_shutdown e)) body = true /\
     forall n,
       fst (connected_main fuel args clock env g) = Interrupted n ->
       List.length (sent_topics body) = n \/
       List.length (sent_topics body) = S n) /\
  (dry_run args = false ->
   (forall i, env i = Quiet) ->
   connected_main fuel args clock env g
   = (ending_of (final (main fuel args Connected clock g)),
      trace (main fuel args Connected clock g))).
Proof.
  intros Hz.
  assert (Hinv : py_inverse (rate args) = Ok (div one (rate args)))
    by (unfold py_inverse; now rewrite Hz).
  split.
  - unfold connected_main. rewrite Hinv.
    destruct (create_simulators (map strip (split ","%char (symbols args))) g)
      as [sims g1].
    match goal with
    | |- context [guarded_send_loop fuel args ?sy clock ?iv env O sims g1 ?tr] =>
        destruct (guarded_send_loop_shape args sy clock iv env fuel O sims g1 tr)
          as (body & Htr & Hbody & Hn)
    end.
    exists body. rewrite Htr. split; [|split; [|split]].
    + cbn [rev]. rewrite <- !app_assoc. reflexivity.
    + exact Hbody.
    + apply (loop_body_facts _ _ Hbody).
    + intros n E. specialize (Hn n E). cbn [Nat.add] in Hn. exact Hn.
  - intros Hd Hq. rewrite (main_connected _ _ _ _ _ Hd Hinv).
    unfold connected_main. rewrite Hinv.
    destruct (create_simulators (map strip (split ","%char (symbols args))) g)
      as [sims g1].
    cbn [fst snd]. apply guarded_send_loop_quiet. exact Hq.
Qed.

End Finally.

(** ** The properties at concrete inputs *)

Lemma generate_trades_touches_one_witness :
  dict_keys sims_two <> [] /\
  exists trade sims' g' sym sim sim',
    generate_trades (dict_keys sims_two) sims_two ([] : tape) (wall_clock 0)
      = Ok (trade, sims', g') /\
    In sym (dict_keys sims_two) /\
    dict_get sims_two sym = Some sim /\ dict_get sims' sym = Some sim' /\
    Trade.symbol trade = symbol sim /\
    Trade.trade_id trade = trade_id sim + 1 /\
    trade_id sim' = trade_id sim + 1 /\
    (forall k, k <> sym -> dict_get sims' k = dict_get sims_two k) /\
    dict_keys sims' = dict_keys sims_two.
Proof.
  assert (Hne : symbols_two <> []) by discriminate.
  destruct (created_ready script_laws symbols_two tape_fresh Hne)
    as (Hk & Hkeys & Hwf & _).
  split; [exact Hk|].
  exact (generate_trades_touches_one script_laws (dict_keys sims_two) sims_two
           ([] : tape) (wall_clock 0) Hk Hkeys Hwf).
Defined.

Lemma generated_ids_consecutive_witness :
  dict_keys sims_two <> [] /\
  exists trades sims' g',
    generate_n 5 (dict_keys sims_two) sims_two ([] : tape) wall_clock
      = Ok (trades, sims', g') /\
    List.length trades = 5%nat /\
    forall k v, dict_get sims_two k = Some v ->
      exists v',
        dict_get sims' k = Some v' /\
        ids_for k trades
          = map (fun i => trade_id v + Z.of_nat i)
                (seq 1 (List.length (ids_for k trades))) /\
        trade_id v' = trade_id v + Z.of_nat (List.length (ids_for k trades)).
Proof.
  assert (Hne : symbols_two <> []) by discriminate.
  destruct (created_ready script_laws symbols_two tape_fresh Hne)
    as (Hk & Hkeys & Hwf & Hkeyed).
  split; [exact Hk|].
  exact (generated_ids_consecutive script_laws 5 (dict_keys sims_two) sims_two
           ([] : tape) wall_clock Hk Hkeys Hwf Hkeyed).
Defined.

Lemma dry_run_never_calls_queue_witness :
  dry_run (args_zero_rate true) = true /\
  forallb (fun e => negb (is_kafka e))
          (trace (main 4 (args_zero_rate true) Connected wall_clock ([] : tape)))
  = true.
Proof.
  split; [reflexivity|].
  exact (dry_run_never_calls_queue 4 (args_zero_rate true) Connected wall_clock
           ([] : tape) eq_refl).
Defined.

Lemma zero_rate_crashes_witness :
  is_zero (rate (args_zero_rate true)) = true /\
  dry_run (args_zero_rate true) = true /\
  (final (main 3 (args_zero_rate true) Connected wall_clock ([] : tape))
     = CRASHED ZeroDivisionError /\
   List.length (emitted (trace (main 3 (args_zero_rate true) Connected
                                  wall_clock ([] : tape)))) = 1%nat) /\
  dry_run (args_zero_rate false) = false /\
  final (main 3 (args_zero_rate false) Connected wall_clock ([] : tape))
    = CRASHED ZeroDivisionError /\
  forallb (fun e => negb (is_shutdown e))
          (trace (main 3 (args_zero_rate false) Connected wall_clock ([] : tape)))
    = true.
Proof.
  split; [reflexivity|]. split; [reflexivity|]. split.
  - exact (proj1 (zero_rate_crashes script_laws 2 (args_zero_rate true)
                    Connected wall_clock ([] : tape) eq_refl) eq_refl).
  - split; [reflexivity|].
    destruct (proj2 (zero_rate_crashes script_laws 3 (args_zero_rate false)
                       Connected wall_clock ([] : tape) eq_refl) eq_refl)
      as (Hf & Htr & _).
    split; [exact Hf|]. rewrite Htr. reflexivity.
Defined.

Lemma negative_count_one_record_witness :
  count (args_negative_count false) < 0 /\
  sleep_for_rate (rate (args_negative_count false)) = Ok (div one hundred) /\
  final (main 3 (args_negative_count false) Connected wall_clock ([] : tape))
    = STOPPED /\
  List.length (emitted (trace (main 3 (args_negative_count false) Connected
                                 wall_clock ([] : tape)))) = 1%nat.
Proof.
  split; [reflexivity|]. split; [reflexivity|].
  exact (negative_count_one_record script_laws 2 (args_negative_count false)
           Connected wall_clock ([] : tape) (div one hundred) eq_refl eq_refl
           (or_intror eq_refl)).
Defined.

Lemma send_count_witness :
  dry_run args_250 = false /\
  sleep_for_rate (rate args_250) = Ok (div one hundred) /\
  0 < count args_250 /\
  (final (main 250 args_250 Connected wall_clock ([] : tape)) = STOPPED /\
   sent_topics (trace (main 250 args_250 Connected wall_clock ([] : tape)))
     = repeat (topic args_250) (Z.to_nat (count args_250)) /\
   filter is_stdout_trade
          (trace (main 250 args_250 Connected wall_clock ([] : tape))) = []) /\
  count args_queue = 0 /\
  (final (main 7 args_queue Connected wall_clock ([] : tape)) = RUNNING /\
   sent_topics (trace (main 7 args_queue Connected wall_clock ([] : tape)))
     = repeat (topic args_queue) 7).
Proof.
  split; [reflexivity|]. split; [reflexivity|]. split; [reflexivity|].
  split; [|split; [reflexivity|]].
  - apply (proj1 (send_count script_laws args_250 wall_clock ([] : tape)
                    (div one hundred) eq_refl eq_refl));
      [reflexivity | cbn; lia].
  - apply (proj2 (send_count script_laws args_queue wall_clock ([] : tape)
                    (div one hundred) eq_refl eq_refl)).
    reflexivity.
Defined.

Lemma progress_every_hundred_witness :
  dry_run args_250 = false /\
  sleep_for_rate (rate args_250) = Ok (div one hundred) /\
  0 < count args_250 /\
  count args_250 <= Z.of_nat 250 /\
  progress_lines (trace (main 250 args_250 Connected wall_clock ([] : tape)))
  = [100; 200].
Proof.
  split; [reflexivity|]. split; [reflexivity|]. split; [reflexivity|].
  split; [cbn; lia|].
  exact (progress_every_hundred script_laws 250 args_250 wall_clock ([] : tape)
           (div one hundred) eq_refl eq_refl eq_refl ltac:(cbn; lia)).
Defined.


(** An interrupt during the third sleep: three records were sent, the
    [except] branch reports three, and the producer is flushed and closed. *)
Lemma finally_runs_last_witness :
  is_zero (rate args_250) = false /\
  fst (connected_main 10 args_250 wall_clock env_interrupt ([] : tape))
    = Interrupted 3 /\
  fst (connected_main 10 args_250 wall_clock env_send_fails ([] : tape))
    = SendFailed /\
  exists body,
    snd (connected_main 10 args_250 wall_clock env_interrupt ([] : tape))
    = rev (banner args_250)
      ++ [KafkaConnect (broker args_250); Stdout (ConnectedTo (broker args_250))]
      ++ body
      ++ closing (fst (connected_main 10 args_250 wall_clock env_interrupt
                         ([] : tape))) /\
    forallb (loop_event (topic args_250)) body = true /\
    forallb (fun e => negb (is_shutdown e)) body = true /\
    forall n,
      fst (connected_main 10 args_250 wall_clock env_interrupt ([] : tape))
        = Interrupted n ->
      List.length (sent_topics body) = n \/
      List.length (sent_topics body) = S n.
Proof.
  split; [reflexivity|]. split; [reflexivity|]. split; [reflexivity|].
  exact (proj1 (finally_runs_last 10 args_250 wall_clock env_interrupt
                  ([] : tape) eq_refl)).
Defined.
